(** * ngc-learn spiking cells: a shallow embedding over the reals

    The development follows three source files:
    - [ngclearn/utils/surrogate_fx.py]                     (module [SurrogateFx])
    - [ngclearn/components/neurons/spiking/WTASCell.py]   (module [WTAS])
    - [ngclearn/components/neurons/spiking/RAFCell.py]    (module [RAF])

    Numbers.  The Python code computes on [float32] arrays.  Here every array
    element is a real number: rounding, overflow and NaN are outside the
    model, and [x * 0 = 0], [x + 0 = x] hold for every element.

    Arrays.  All arrays handled by the cells are rank-2 ([batch x units]).
    An array is a shape together with an indexing function; element-wise
    binary operations follow the NumPy broadcasting rule and raise a shape
    error when the two shapes are not compatible. *)

From Stdlib Require Import Reals Lra Lia List String Bool Arith.
Import ListNotations.

Open Scope R_scope.

(* ------------------------------------------------------------------ *)
(** ** Results: a value or a shape error *)

Inductive res (A : Type) : Type :=
| Ok (a : A)
| ShapeMismatch.

Arguments Ok {A} a.
Arguments ShapeMismatch {A}.

Definition bind {A B : Type} (m : res A) (k : A -> res B) : res B :=
  match m with
  | Ok a => k a
  | ShapeMismatch => ShapeMismatch
  end.

Notation "x <- m ;; k" := (bind m (fun x => k))
  (at level 61, m at next level, right associativity).
Notation "' p <- m ;; k" := (bind m (fun x => let p := x in k))
  (at level 61, p pattern, m at next level, right associativity).

Definition fmap {A B : Type} (f : A -> B) (m : res A) : res B :=
  match m with
  | Ok a => Ok (f a)
  | ShapeMismatch => ShapeMismatch
  end.

Definition is_ok {A : Type} (m : res A) : bool :=
  match m with Ok _ => true | ShapeMismatch => false end.

(* ------------------------------------------------------------------ *)
(** ** The fragment of [jax.numpy] used by the cells *)

Module Jnp.

Record tensor : Type := mkTensor
  { rows : nat;               (* axis 0: batch *)
    cols : nat;               (* axis 1: units *)
    elt  : nat -> nat -> R }.

Definition shape (x : tensor) : nat * nat := (rows x, cols x).

(** [jnp.zeros((b, n))] *)
Definition zeros (b n : nat) : tensor := mkTensor b n (fun _ _ => 0).

(** An array literal given by its rows. *)
Definition of_rows (n : nat) (l : list (list R)) : tensor :=
  mkTensor (List.length l) n (fun i k => nth k (nth i l []) 0).

(** Unary element-wise map. *)
Definition map (f : R -> R) (x : tensor) : tensor :=
  mkTensor (rows x) (cols x) (fun i k => f (elt x i k)).

(** Operations between an array and a Python scalar never fail. *)
Definition scale (x : tensor) (c : R) : tensor := map (fun a => a * c) x.
Definition shift (x : tensor) (c : R) : tensor := map (fun a => a + c) x.
Definition ssub (x : tensor) (c : R) : tensor := map (fun a => a - c) x.
Definition rsub (c : R) (x : tensor) : tensor := map (fun a => c - a) x.
Definition lscale (c : R) (x : tensor) : tensor := map (fun a => c * a) x.

(** [(a > b).astype(float32)] and [(a >= b).astype(float32)] on elements. *)
Definition gtf (a b : R) : R := if Rlt_dec b a then 1 else 0.
Definition gef (a b : R) : R := if Rle_dec b a then 1 else 0.

Definition gts (x : tensor) (c : R) : tensor := map (fun a => gtf a c) x.
Definition ges (x : tensor) (c : R) : tensor := map (fun a => gef a c) x.

(** [jnp.maximum(x, c)] with a scalar [c]. *)
Definition maximum (x : tensor) (c : R) : tensor := map (fun a => Rmax a c) x.

(** Broadcasting of one axis: equal sizes, or one of them is 1. *)
Definition bdim (a b : nat) : option nat :=
  if (a =? b)%nat then Some a
  else if (a =? 1)%nat then Some b
  else if (b =? 1)%nat then Some a
  else None.

(** Index into an axis of size [d] from the broadcast result. *)
Definition bidx (d i : nat) : nat := if (d =? 1)%nat then O else i.

(** Binary element-wise operation with broadcasting. *)
Definition zip (f : R -> R -> R) (x y : tensor) : res tensor :=
  match bdim (rows x) (rows y), bdim (cols x) (cols y) with
  | Some r, Some c =>
      Ok (mkTensor r c
            (fun i k => f (elt x (bidx (rows x) i) (bidx (cols x) k))
                          (elt y (bidx (rows y) i) (bidx (cols y) k))))
  | _, _ => ShapeMismatch
  end.

Definition add : tensor -> tensor -> res tensor := zip Rplus.
Definition sub : tensor -> tensor -> res tensor := zip Rminus.
Definition mul : tensor -> tensor -> res tensor := zip Rmult.
Definition gt  : tensor -> tensor -> res tensor := zip gtf.

(** Sum of the first [n] values of [f]. *)
Fixpoint rowsum (f : nat -> R) (n : nat) : R :=
  match n with
  | O => 0
  | S m => rowsum f m + f m
  end.

(** [jnp.sum(x, axis=1, keepdims=True)] *)
Definition sum_axis1 (x : tensor) : tensor :=
  mkTensor (rows x) 1 (fun i _ => rowsum (elt x i) (cols x)).

(** Two shapes can be broadcast together. *)
Definition compatible (s1 s2 : nat * nat) : bool :=
  match bdim (fst s1) (fst s2), bdim (snd s1) (snd s2) with
  | Some _, Some _ => true
  | _, _ => false
  end.

End Jnp.

Import Jnp.

(* ------------------------------------------------------------------ *)
(** ** [ngclearn.utils.model_utils] *)

Module ModelUtils.

(** Modelled from the spec: [softmax] of [ngclearn.utils.model_utils] is
    imported by [WTASCell.py] but its file is not part of the sources.  The
    specification describes it as the normalisation of a batch row into a
    probability-like distribution across the units of that row:
    [softmax(x)[i,k] = exp(x[i,k]) / sum_k' exp(x[i,k'])]. *)
Definition softmax (x : tensor) : tensor :=
  mkTensor (rows x) (cols x)
    (fun i k => exp (elt x i k) / rowsum (fun k' => exp (elt x i k')) (cols x)).

End ModelUtils.

(* ------------------------------------------------------------------ *)
(** ** [ngclearn/utils/surrogate_fx.py] *)

Module SurrogateFx.

(** [secant_lif_estimator.spike_fx] *)
Definition spike_fx (v : tensor) (thr : R) : tensor := gts v thr.

(** [secant_lif_estimator.d_spike_fx(j, thr, c1, c2, omit_scale)] *)
Definition d_spike_fx (j : tensor) (thr c1 c2 : R) (omit_scale : bool) : res tensor :=
  let mask := gts j 0 in
  let dj := scale j c2 in
  let cosh_j := map (fun a => (exp a + exp (- a)) / 2) dj in
  let sech_j := map (fun a => 1 / a) cosh_j in
  let dv_dj := sech_j in
  let dv_dj := if negb omit_scale then scale dv_dj (c1 * c2) else dv_dj in
  mul dv_dj mask.

(** The hyperbolic secant and its square, as the docstring writes them. *)
Definition sech (x : R) : R := 1 / ((exp x + exp (- x)) / 2).
Definition sech2 (x : R) : R := sech x * sech x.

(** What the docstring of [d_spike_fx] promises for one element. *)
Definition d_spike_doc (j c1 c2 : R) (omit_scale : bool) : R :=
  (if omit_scale then 1 else c1 * c2) * (if Rlt_dec 0 j then sech2 (c2 * j) else 0).

End SurrogateFx.

(* ------------------------------------------------------------------ *)
(** ** [ngclearn/components/neurons/spiking/WTASCell.py] *)

Module WTAS.

Import ModelUtils.

(** [update_times(t, s, tols)] *)
Definition update_times (t : R) (s tols : tensor) : res tensor :=
  a <- mul (rsub 1 s) tols ;;
  add a (scale s t).

(** [run_cell(dt, j, v, rfr, v_thr, tau_m, R_m, thr_gain, refract_T)] *)
Definition run_cell (dt : R) (j v rfr v_thr : tensor) (tau_m R_m thr_gain refract_T : R)
  : res (tensor * tensor * tensor * tensor) :=
  let mask := ges rfr refract_T in
  v <- mul (scale j R_m) mask ;;
  let vp := softmax v in
  s <- gt vp v_thr ;;
  let q := 1 in
  let dthr := ssub (sum_axis1 s) q in
  v_thr <- add v_thr (scale dthr thr_gain) ;;
  let v_thr := maximum v_thr 0.025 in
  a <- mul (shift rfr dt) (rsub 1 s) ;;
  rfr <- add a (scale s dt) ;;
  Ok (v, s, v_thr, rfr).

(** The cell object: hyper-parameters and compartments. *)
Record WTASCell : Type := mkCell
  { tau_m : R;
    R_m : R;
    thr_gain : R;
    thr_base : R;
    refract_T : R;
    batch_size : nat;
    n_units : nat;
    threshold0 : tensor;
    j : tensor;
    v : tensor;
    s : tensor;
    thr : tensor;
    rfr : tensor;
    tols : tensor }.

(** [WTASCell.__init__].  [uniform k] is the draw of
    [random.uniform(subkey, (1, n_units), minval=-thr_jitter, maxval=thr_jitter)]
    for unit [k]; [kwargs] are the extra keyword arguments, which are handed
    to the base class and never read by the cell. *)
Definition __init__ (n_units : nat) (tau_m R_m thr_base thr_gain refract_T thr_jitter : R)
    (uniform : nat -> R) (kwargs : list (string * nat)) : WTASCell :=
  let batch_size := 1%nat in
  let threshold0 := mkTensor 1 n_units (fun _ k => thr_base + uniform k) in
  let restVals := zeros batch_size n_units in
  {| tau_m := tau_m; R_m := R_m; thr_gain := thr_gain; thr_base := thr_base;
     refract_T := refract_T; batch_size := batch_size; n_units := n_units;
     threshold0 := threshold0;
     j := restVals; v := restVals; s := restVals; thr := threshold0;
     rfr := shift restVals refract_T; tols := restVals |}.

(** [WTASCell._advance_state] *)
Definition _advance_state (t dt tau_m R_m thr_gain refract_T : R)
    (j v s thr rfr tols : tensor)
  : res (tensor * tensor * tensor * tensor * tensor) :=
  '(v, s, thr, rfr) <- run_cell dt j v rfr thr tau_m R_m thr_gain refract_T ;;
  tols <- update_times t s tols ;;
  Ok (v, s, thr, rfr, tols).

(** [WTASCell.advance_state]: the resolver reads the attributes and the
    compartments of the cell, runs [_advance_state] and stores the results. *)
Definition advance_state (c : WTASCell) (t dt : R) : res WTASCell :=
  '(v', s', thr', rfr', tols') <-
    _advance_state t dt (tau_m c) (R_m c) (thr_gain c) (refract_T c)
                   (j c) (v c) (s c) (thr c) (rfr c) (tols c) ;;
  Ok {| tau_m := tau_m c; R_m := R_m c; thr_gain := thr_gain c;
        thr_base := thr_base c; refract_T := refract_T c;
        batch_size := batch_size c; n_units := n_units c;
        threshold0 := threshold0 c;
        j := j c; v := v'; s := s'; thr := thr'; rfr := rfr'; tols := tols' |}.

(** [WTASCell._reset] *)
Definition _reset (batch_size n_units : nat) (refract_T : R)
  : tensor * tensor * tensor * tensor * tensor :=
  let restVals := zeros batch_size n_units in
  let j := restVals in
  let v := restVals in
  let s := restVals in
  let rfr := shift restVals refract_T in
  let tols := restVals in
  (j, v, s, rfr, tols).

(** [WTASCell.reset] *)
Definition reset (c : WTASCell) : WTASCell :=
  let '(j', v', s', rfr', tols') := _reset (batch_size c) (n_units c) (refract_T c) in
  {| tau_m := tau_m c; R_m := R_m c; thr_gain := thr_gain c;
     thr_base := thr_base c; refract_T := refract_T c;
     batch_size := batch_size c; n_units := n_units c;
     threshold0 := threshold0 c;
     j := j'; v := v'; s := s'; thr := thr c; rfr := rfr'; tols := tols' |}.

(** The caller writes the input current into compartment [j]. *)
Definition set_j (c : WTASCell) (x : tensor) : WTASCell :=
  {| tau_m := tau_m c; R_m := R_m c; thr_gain := thr_gain c;
     thr_base := thr_base c; refract_T := refract_T c;
     batch_size := batch_size c; n_units := n_units c;
     threshold0 := threshold0 c;
     j := x; v := v c; s := s c; thr := thr c; rfr := rfr c; tols := tols c |}.

(** The same cell with another membrane time constant. *)
Definition set_tau_m (c : WTASCell) (x : R) : WTASCell :=
  {| tau_m := x; R_m := R_m c; thr_gain := thr_gain c;
     thr_base := thr_base c; refract_T := refract_T c;
     batch_size := batch_size c; n_units := n_units c;
     threshold0 := threshold0 c;
     j := j c; v := v c; s := s c; thr := thr c; rfr := rfr c; tols := tols c |}.

(** The cell is laid out for [bs] batch rows of [n] units: the two size
    attributes say so and every compartment has that shape. *)
Definition allocated (bs n : nat) (c : WTASCell) : Prop :=
  batch_size c = bs /\ n_units c = n /\
  shape (j c) = (bs, n) /\ shape (v c) = (bs, n) /\ shape (s c) = (bs, n) /\
  shape (thr c) = (bs, n) /\ shape (rfr c) = (bs, n) /\ shape (tols c) = (bs, n).

(** The state written by a step, in the order [_advance_state] returns it. *)
Definition outputs (c : WTASCell) : tensor * tensor * tensor * tensor * tensor :=
  (v c, s c, thr c, rfr c, tols c).

End WTAS.

(* ------------------------------------------------------------------ *)
(** ** [ngclearn.utils.diffeq.ode_utils] *)

Module OdeUtils.

(** Modelled from the spec: [get_integrator_code] is imported by [RAFCell.py]
    from [ngclearn.utils.diffeq.ode_utils], which is not part of the sources.
    The specification recognises ["euler"] (first order) and ["midpoint"] or
    ["rk2"] (second order) and lets every other selector fall back to Euler;
    [RAFCell._advance_state] reads code 1 as midpoint and calls code 0 the
    Euler default. *)
Definition get_integrator_code (integrationType : string) : nat :=
  if (String.eqb integrationType "midpoint" || String.eqb integrationType "rk2")%bool
  then 1%nat else 0%nat.

(** Modelled from the spec: [step_euler] of the same missing module.  Given
    the time, the state [x], the derivative function, the step size and the
    parameters it produces [(new_t, new_x)] with
    [new_x = x + dt * f(t, x, params)]. *)
Definition step_euler {P : Type} (t : R) (x : tensor)
    (dfx : R -> tensor -> P -> res tensor) (dt : R) (params : P) : res (R * tensor) :=
  dx_dt <- dfx t x params ;;
  x' <- add x (lscale dt dx_dt) ;;
  Ok (t + dt, x').

(** Modelled from the spec: [step_rk2] of the same missing module.  It
    evaluates [f] at [t] to estimate a half-step state, evaluates [f] again at
    the half step, and advances from [x] by that second evaluation scaled by
    [dt]. *)
Definition step_rk2 {P : Type} (t : R) (x : tensor)
    (dfx : R -> tensor -> P -> res tensor) (dt : R) (params : P) : res (R * tensor) :=
  f_1 <- dfx t x params ;;
  x_half <- add x (lscale (dt / 2) f_1) ;;
  f_2 <- dfx (t + dt / 2) x_half params ;;
  x' <- add x (lscale dt f_2) ;;
  Ok (t + dt, x').

End OdeUtils.

(* ------------------------------------------------------------------ *)
(** ** [ngclearn/components/neurons/spiking/RAFCell.py] *)

Module RAF.

Import OdeUtils.

(** [_update_times(t, s, tols)] *)
Definition _update_times (t : R) (s tols : tensor) : res tensor :=
  a <- mul (rsub 1 s) tols ;;
  add a (scale s t).

(** [_dfv_internal(j, v, w, tau_m, omega, b)].  The factor [1 / tau_m] is the
    division of the reals; it is what the code computes for [tau_m <> 0]
    only (at [tau_m = 0] the code gets an infinite factor): the theorems that
    give the spike, the voltage or the angular driver of a step assume
    [tau_m <> 0]. *)
Definition _dfv_internal (j v w : tensor) (tau_m omega b : R) : res tensor :=
  dv_dt <- add (lscale omega w) (scale v b) ;;
  let dv_dt := scale dv_dt (1 / tau_m) in
  Ok dv_dt.

(** The parameter tuples handed to the steppers. *)
Definition params : Type := (tensor * tensor * R * R * R)%type.

(** [_dfv(t, v, params)] *)
Definition _dfv (t : R) (v : tensor) (params : params) : res tensor :=
  let '(j, w, tau_m, omega, b) := params in
  _dfv_internal j v w tau_m omega b.

(** [_dfw_internal(j, v, w, tau_w, omega, b)].  As for [tau_m], the factor
    [1 / tau_w] is what the code computes for [tau_w <> 0] only, and the
    theorems that give the spike, the voltage or the angular driver of a
    step assume [tau_w <> 0]. *)
Definition _dfw_internal (j v w : tensor) (tau_w omega b : R) : res tensor :=
  a <- sub (scale w b) (scale v omega) ;;
  dw_dt <- add a j ;;
  let dw_dt := scale dw_dt (1 / tau_w) in
  Ok dw_dt.

(** [_dfw(t, w, params)] *)
Definition _dfw (t : R) (w : tensor) (params : params) : res tensor :=
  let '(j, v, tau_w, omega, b) := params in
  _dfw_internal j v w tau_w omega b.

(** The two derivatives read at one unit: [j] is the scaled current, [v] the
    voltage and [w] the angular driver of that unit. *)
Definition dfw_elt (j v w tau_w omega b : R) : R :=
  (w * b - v * omega + j) * (1 / tau_w).
Definition dfv_elt (w v tau_m omega b : R) : R :=
  (omega * w + v * b) * (1 / tau_m).

(** The candidates of one unit as functions of its values before the step:
    one Euler step, or one midpoint step when the flag is 1. *)
Definition cand_w (intgFlag : nat) (dt j v w tau_w omega b : R) : R :=
  if (intgFlag =? 1)%nat
  then w + dt * dfw_elt j v (w + dt / 2 * dfw_elt j v w tau_w omega b) tau_w omega b
  else w + dt * dfw_elt j v w tau_w omega b.
Definition cand_v (intgFlag : nat) (dt w v tau_m omega b : R) : R :=
  if (intgFlag =? 1)%nat
  then v + dt * dfv_elt w (v + dt / 2 * dfv_elt w v tau_m omega b) tau_m omega b
  else v + dt * dfv_elt w v tau_m omega b.

(** [_emit_spike(v, v_thr)] *)
Definition _emit_spike (v : tensor) (v_thr : R) : tensor := gts v v_thr.

(** The cell object: hyper-parameters and compartments. *)
Record RAFCell : Type := mkCell
  { integrationType : string;
    intgFlag : nat;
    tau_m : R;
    R_m : R;
    tau_w : R;
    omega : R;
    b : R;
    v_rest : R;
    v_reset : R;
    w_reset : R;
    v0 : R;
    w0 : R;
    thr : R;
    batch_size : nat;
    n_units : nat;
    j : tensor;
    v : tensor;
    w : tensor;
    s : tensor;
    tols : tensor }.

(** [RAFCell.__init__] *)
Definition __init__ (n_units : nat)
    (tau_m resist_m tau_w omega thr v_rest v_reset w_reset b v0 w0 : R)
    (integration_type : string) (batch_size : nat) : RAFCell :=
  let restVals := zeros batch_size n_units in
  {| integrationType := integration_type;
     intgFlag := get_integrator_code integration_type;
     tau_m := tau_m; R_m := resist_m; tau_w := tau_w; omega := omega; b := b;
     v_rest := v_rest; v_reset := v_reset; w_reset := w_reset;
     v0 := v0; w0 := w0; thr := thr;
     batch_size := batch_size; n_units := n_units;
     j := restVals;
     v := shift restVals v0;
     w := shift restVals w0;
     s := restVals;
     tols := restVals |}.

(** The integration block of [_advance_state]: the branch on [intgFlag] that
    yields the candidates [(_w, _v)]. *)
Definition integrate (intgFlag : nat) (dt tau_m tau_w omega b : R) (j_ v w : tensor)
  : res (tensor * tensor) :=
  if (intgFlag =? 1)%nat then
    let w_params := (j_, v, tau_w, omega, b) in
    '(_, _w) <- step_rk2 0 w _dfw dt w_params ;;
    let v_params := (j_, w, tau_m, omega, b) in
    '(_, _v) <- step_rk2 0 v _dfv dt v_params ;;
    Ok (_w, _v)
  else
    let w_params := (j_, v, tau_w, omega, b) in
    '(_, _w) <- step_euler 0 w _dfw dt w_params ;;
    let v_params := (j_, w, tau_m, omega, b) in
    '(_, _v) <- step_euler 0 v _dfv dt v_params ;;
    Ok (_w, _v).

(** [RAFCell._advance_state] *)
Definition _advance_state (t dt tau_m R_m tau_w thr omega b v_rest v_reset w_reset : R)
    (intgFlag : nat) (j v w tols : tensor)
  : res (tensor * tensor * tensor * tensor * tensor) :=
  let j_ := scale j R_m in
  '(_w, _v) <- integrate intgFlag dt tau_m tau_w omega b j_ v w ;;
  let s := _emit_spike _v thr in
  a <- mul _v (rsub 1 s) ;;
  v <- add a (scale s v_reset) ;;
  a <- mul _w (rsub 1 s) ;;
  w <- add a (scale s w_reset) ;;
  tols <- _update_times t s tols ;;
  Ok (j, v, w, s, tols).

(** [RAFCell.advance_state]: the resolver reads the attributes and the
    compartments of the cell, runs [_advance_state] and stores the results. *)
Definition advance_state (c : RAFCell) (t dt : R) : res RAFCell :=
  '(j', v', w', s', tols') <-
    _advance_state t dt (tau_m c) (R_m c) (tau_w c) (thr c) (omega c) (b c)
                   (v_rest c) (v_reset c) (w_reset c) (intgFlag c)
                   (j c) (v c) (w c) (tols c) ;;
  Ok {| integrationType := integrationType c; intgFlag := intgFlag c;
        tau_m := tau_m c; R_m := R_m c; tau_w := tau_w c; omega := omega c;
        b := b c; v_rest := v_rest c; v_reset := v_reset c;
        w_reset := w_reset c; v0 := v0 c; w0 := w0 c; thr := thr c;
        batch_size := batch_size c; n_units := n_units c;
        j := j'; v := v'; w := w'; s := s'; tols := tols' |}.

(** [RAFCell._reset] *)
Definition _reset (batch_size n_units : nat) (v0 w0 : R)
  : tensor * tensor * tensor * tensor * tensor :=
  let restVals := zeros batch_size n_units in
  let j := restVals in
  let v := shift restVals v0 in
  let w := shift restVals w0 in
  let s := restVals in
  let tols := restVals in
  (j, v, w, s, tols).

(** [RAFCell.reset] *)
Definition reset (c : RAFCell) : RAFCell :=
  let '(j', v', w', s', tols') := _reset (batch_size c) (n_units c) (v0 c) (w0 c) in
  {| integrationType := integrationType c; intgFlag := intgFlag c;
     tau_m := tau_m c; R_m := R_m c; tau_w := tau_w c; omega := omega c;
     b := b c; v_rest := v_rest c; v_reset := v_reset c;
     w_reset := w_reset c; v0 := v0 c; w0 := w0 c; thr := thr c;
     batch_size := batch_size c; n_units := n_units c;
     j := j'; v := v'; w := w'; s := s'; tols := tols' |}.

(** The caller writes the input current into compartment [j]. *)
Definition set_j (c : RAFCell) (x : tensor) : RAFCell :=
  {| integrationType := integrationType c; intgFlag := intgFlag c;
     tau_m := tau_m c; R_m := R_m c; tau_w := tau_w c; omega := omega c;
     b := b c; v_rest := v_rest c; v_reset := v_reset c;
     w_reset := w_reset c; v0 := v0 c; w0 := w0 c; thr := thr c;
     batch_size := batch_size c; n_units := n_units c;
     j := x; v := v c; w := w c; s := s c; tols := tols c |}.

(** The cell is laid out for [bs] batch rows of [n] units: the two size
    attributes say so and every compartment has that shape. *)
Definition allocated (bs n : nat) (c : RAFCell) : Prop :=
  batch_size c = bs /\ n_units c = n /\
  shape (j c) = (bs, n) /\ shape (v c) = (bs, n) /\ shape (w c) = (bs, n) /\
  shape (s c) = (bs, n) /\ shape (tols c) = (bs, n).

(** The compartments, in the order [_advance_state] returns them. *)
Definition outputs (c : RAFCell) : tensor * tensor * tensor * tensor * tensor :=
  (j c, v c, w c, s c, tols c).

End RAF.

(* ------------------------------------------------------------------ *)
(** ** Concrete inputs used in the examples below *)

Module Examples.

(** One unit that spiked in the previous step of size 0.5, so that its timer
    is 0.5, below [refract_T = 1]; it is driven by a current of 5 and has
    threshold 0.4. *)
Definition one_j : tensor := of_rows 1 [[5]].
Definition one_rfr : tensor := of_rows 1 [[0.5]].
Definition one_thr : tensor := of_rows 1 [[0.4]].
Definition one_zero : tensor := zeros 1 1.

(** A batch row of two units. *)
Definition two_j : tensor := of_rows 2 [[1; 2]].
Definition two_rfr : tensor := of_rows 2 [[0; 3]].
Definition two_thr : tensor := of_rows 2 [[0.4; 0.4]].
Definition two_zero : tensor := zeros 1 2.

Definition two_v : tensor := of_rows 2 [[-70; -70]].
Definition one_one : tensor := of_rows 1 [[1]].

(** A current with three batch rows, for a state with one. *)
Definition wide_j : tensor := of_rows 2 [[1; 2]; [3; 4]; [5; 6]].

End Examples.

(* ------------------------------------------------------------------ *)
(** ** The other surrogate builders of [surrogate_fx.py] *)

(** [(a < b).astype(float32)] on elements. *)
Definition ltf (a b : R) : R := if Rlt_dec a b then 1 else 0.

(** [(x < c).astype(float32)] with a scalar [c]. *)
Definition lts (x : tensor) (c : R) : tensor := Jnp.map (fun a => ltf a c) x.

(** [jnp.square(x)] *)
Definition square (x : tensor) : tensor := Jnp.map (fun a => a * a) x.

Module StraightThrough.

(** [straight_through_estimator.spike_fx] *)
Definition spike_fx (v : tensor) (thr : R) : tensor := gts v thr.

(** [straight_through_estimator.d_spike_fx] *)
Definition d_spike_fx (v : tensor) (thr : R) : tensor := shift (scale v 0) 1.

End StraightThrough.

Module Triangular.

(** [triangular_estimator.spike_fx] *)
Definition spike_fx (v : tensor) (thr : R) : tensor := gts v thr.

(** [triangular_estimator.d_spike_fx] *)
Definition d_spike_fx (v : tensor) (thr : R) : res tensor :=
  let mask := lts v thr in
  dfx <- sub (scale mask thr) (scale (rsub 1 mask) thr) ;;
  Ok dfx.

End Triangular.

Module Arctan.

(** [arctan_estimator.spike_fx] *)
Definition spike_fx (v : tensor) (thr : R) : tensor := gts v thr.

(** [arctan_estimator.d_spike_fx] *)
Definition d_spike_fx (v : tensor) (thr : R) : tensor :=
  let pi := PI in
  let dfx :=
    scale (Jnp.map (fun a => 1 / a) (Jnp.map (fun a => 1 + a) (square (scale v pi))))
          (1 / pi) in
  dfx.

End Arctan.

(* ------------------------------------------------------------------ *)
(** ** [WTASCell.save] and [WTASCell.load] *)

Module Persistence.

(** The content of an [.npz] file: named arrays. *)
Definition archive : Type := list (string * tensor).

(** The part of the file system the two methods touch: which paths can be
    written, and the archive stored under a path, if any. *)
Record disk : Type := mkDisk
  { writable : string -> bool;
    files : string -> option archive }.

(** The outcome of an operation on files. *)
Inductive io (A : Type) : Type :=
| Done (a : A)
| IOError
| KeyError.

Arguments Done {A} a.
Arguments IOError {A}.
Arguments KeyError {A}.

(** [jnp.savez(file_name, **kwds)]: the path already ends in ".npz", so the
    archive is written under that very path; it fails when the path cannot
    be written. *)
Definition savez (file_name : string) (kwds : archive) (fs : disk) : io disk :=
  if writable fs file_name
  then Done {| writable := writable fs;
               files := fun f => if String.eqb f file_name then Some kwds
                                 else files fs f |}
  else IOError.

(** [jnp.load(file_name)]: fails when there is no such file. *)
Definition load_npz (file_name : string) (fs : disk) : io archive :=
  match files fs file_name with
  | Some data => Done data
  | None => IOError
  end.

(** [data[key]] *)
Fixpoint getitem (data : archive) (key : string) : io tensor :=
  match data with
  | [] => KeyError
  | (k, x) :: rest => if String.eqb k key then Done x else getitem rest key
  end.

(** [self.thr.set(x)] *)
Definition set_thr (c : WTAS.WTASCell) (x : tensor) : WTAS.WTASCell :=
  {| WTAS.tau_m := WTAS.tau_m c; WTAS.R_m := WTAS.R_m c;
     WTAS.thr_gain := WTAS.thr_gain c; WTAS.thr_base := WTAS.thr_base c;
     WTAS.refract_T := WTAS.refract_T c; WTAS.batch_size := WTAS.batch_size c;
     WTAS.n_units := WTAS.n_units c; WTAS.threshold0 := WTAS.threshold0 c;
     WTAS.j := WTAS.j c; WTAS.v := WTAS.v c; WTAS.s := WTAS.s c;
     WTAS.thr := x; WTAS.rfr := WTAS.rfr c; WTAS.tols := WTAS.tols c |}.

(** [directory + "/" + self.name + ".npz"] *)
Definition file_name_of (directory name : string) : string :=
  (((directory ++ "/") ++ name) ++ ".npz")%string.

(** [WTASCell.save(directory)]; [name] is the attribute [self.name], which
    the base class keeps. *)
Definition save (name : string) (c : WTAS.WTASCell) (directory : string)
    (fs : disk) : io disk :=
  let file_name := file_name_of directory name in
  savez file_name [("threshold"%string, WTAS.thr c)] fs.

(** [WTASCell.load(directory)] *)
Definition load (name : string) (c : WTAS.WTASCell) (directory : string)
    (fs : disk) : io WTAS.WTASCell :=
  let file_name := file_name_of directory name in
  match load_npz file_name fs with
  | Done data =>
      match getitem data "threshold" with
      | Done x => Done (set_thr c x)
      | IOError => IOError
      | KeyError => KeyError
      end
  | IOError => IOError
  | KeyError => KeyError
  end.

End Persistence.

(* ------------------------------------------------------------------ *)
(** ** [ngclearn/utils/patch_utils.py] *)

Module PatchUtils.

(** The exceptions the two routines can end in. *)
Inductive exn : Type := ValueError | TypeError | AxisError | IndexError.

Inductive outcome (A : Type) : Type :=
| Returns (a : A)
| Raises (e : exn).

Arguments Returns {A} a.
Arguments Raises {A} e.

Definition obind {A B : Type} (m : outcome A) (k : A -> outcome B) : outcome B :=
  match m with
  | Returns a => k a
  | Raises e => Raises e
  end.

Notation "x <~ m ;; k" := (obind m (fun x => k))
  (at level 61, m at next level, right associativity).

(** A broadcasting error of [numpy] is a [ValueError]. *)
Definition of_res {A : Type} (m : res A) : outcome A :=
  match m with
  | Ok a => Returns a
  | ShapeMismatch => Raises ValueError
  end.

(** [int(np.sqrt(n))] *)
Definition int_sqrt (n : nat) : nat := Nat.sqrt n.

(** [np.concatenate((a, b), axis=0)] *)
Definition concatenate (a b : tensor) : outcome tensor :=
  if (cols a =? cols b)%nat
  then Returns (mkTensor (rows a + rows b) (cols a)
                  (fun i k => if (i <? rows a)%nat then elt a i k
                              else elt b (i - rows a) k))
  else Raises ValueError.

(** [np.mean(p, axis=1, keepdims=True)] *)
Definition mean_axis1 (p : tensor) : tensor :=
  mkTensor (rows p) 1 (fun i _ => rowsum (elt p i) (cols p) / INR (cols p)).

(** [x[s, :].reshape(px, py)] *)
Definition row_reshape (x : tensor) (s px py : nat) : outcome tensor :=
  if (px * py =? cols x)%nat
  then Returns (mkTensor px py (fun a b => elt x s (a * py + b)))
  else Raises ValueError.

(** A stack of patches: an array of shape [count x ph x pw]. *)
Record patches : Type := mkPatches
  { count : nat;
    ph : nat;
    pw : nat;
    pix : nat -> nat -> nat -> R }.

(** [np.reshape(patches, (len(patches), -1))]: the unknown axis cannot be
    inferred when there is no patch. *)
Definition flatten_patches (p : patches) : outcome tensor :=
  if (count p =? 0)%nat then Raises ValueError
  else Returns (mkTensor (count p) (ph p * pw p)
                  (fun i k => pix p i (k / pw p) (k mod pw p))).

(** A [for] loop over a range with one loop-carried variable. *)
Fixpoint for_range {A : Type} (body : A -> nat -> outcome A) (range : list nat)
    (acc : A) : outcome A :=
  match range with
  | [] => Returns acc
  | s :: rest =>
      match body acc s with
      | Returns acc' => for_range body rest acc'
      | Raises e => Raises e
      end
  end.

(** Centering, the common end of both routines:
    [mu = np.mean(p, axis=1, keepdims=True); p = p - mu]. *)
Definition center_rows (p : tensor) : outcome tensor :=
  let mu := mean_axis1 p in
  of_res (sub p mu).

Section Generate_patch_set.

(** [sklearn.feature_extraction.image.extract_patches_2d], a library
    function that samples at random: its result at the [s]-th call of the
    loop, for the image, the patch size and the maximal number of patches. *)
Variable extract_patches_2d :
  nat -> tensor -> nat * nat -> nat -> outcome patches.

(** The exception [jnp.array(None)] ends in: a library call whose exception
    class differs between releases of the library. *)
Variable array_of_None : exn.

(** The body of the loop of [generate_patch_set]: [p_batch] is [None]
    before the first image. *)
Definition patch_loop_body (_x_batch : tensor) (px py : nat)
    (patch_size : nat * nat) (max_patches : nat)
    (p_batch : option tensor) (s : nat) : outcome (option tensor) :=
  xs <~ row_reshape _x_batch s px py ;;
  patches <~ extract_patches_2d s xs patch_size max_patches ;;
  patches <~ flatten_patches patches ;;
  if (0 <? s)%nat then
    match p_batch with
    | Some p => p_batch <~ concatenate p patches ;; Returns (Some p_batch)
    | None => Raises ValueError
    end
  else Returns (Some patches).

(** [generate_patch_set(x_batch, patch_size, max_patches, center)] *)
Definition generate_patch_set (x_batch : tensor) (patch_size : nat * nat)
    (max_patches : nat) (center : bool) : outcome tensor :=
  let _x_batch := x_batch in
  let px := int_sqrt (cols _x_batch) in
  let py := px in
  let p_batch := None in
  p_batch <~ for_range (patch_loop_body _x_batch px py patch_size max_patches)
               (seq 0 (rows _x_batch)) p_batch ;;
  p_batch <~ (if center then
                match p_batch with
                | Some p => p <~ center_rows p ;; Returns (Some p)
                | None => Raises AxisError
                end
              else Returns p_batch) ;;
  match p_batch with
  | Some p => Returns p
  | None => Raises array_of_None
  end.

End Generate_patch_set.

(** The patches cut by [patchify]: an array of shape [n0 x n1 x d2 x d3]. *)
Record grid : Type := mkGrid
  { n0 : nat;
    n1 : nat;
    d2 : nat;
    d3 : nat;
    cell : nat -> nat -> nat -> nat -> R }.

(** [x_batch.reshape(px, py)] on the whole batch. *)
Definition batch_reshape (x : tensor) (px py : nat) : outcome tensor :=
  if (px * py =? rows x * cols x)%nat
  then Returns (mkTensor px py
                  (fun a b => elt x ((a * py + b) / cols x) ((a * py + b) mod cols x)))
  else Raises ValueError.

(** [np.reshape(pX[i,j,:,:], (1, pch_x * pch_y))] *)
Definition patch_row (pX : grid) (pch_x pch_y i j : nat) : outcome tensor :=
  if (d2 pX * d3 pX =? pch_x * pch_y)%nat
  then Returns (mkTensor 1 (pch_x * pch_y)
                  (fun _ k => cell pX i j (k / d3 pX) (k mod d3 pX)))
  else Raises ValueError.

(** [jnp.concatenate(l, axis=0)]: there must be at least one array. *)
Definition concatenate_list (l : list tensor) : outcome tensor :=
  match l with
  | [] => Raises ValueError
  | a :: rest =>
      fold_left (fun acc x => acc <~ acc ;; concatenate acc x) rest (Returns a)
  end.

Section Generate_patchify_patch_set.

(** [np.squeeze(ptch.patchify(np.expand_dims(img, axis=2), (pch_x, pch_y, 1),
    step=pch_x))] of the library [patchify], for the reshaped image and the
    patch size, when it is an array of four axes; with fewer axes the
    indexing [pX[i,j,:,:]] of the loop raises or the loop collects nothing,
    so the routine raises then, as it does when the library does. *)
Variable squeezed_patchify : tensor -> nat * nat -> outcome grid.

(** [generate_pacthify_patch_set(x_batch_, patch_size, center)] *)
Definition generate_pacthify_patch_set (x_batch_ : tensor)
    (patch_size : nat * nat) (center : bool) : outcome tensor :=
  let x_batch := x_batch_ in
  let px := int_sqrt (cols x_batch) in
  let py := px in
  x_batch <~ batch_reshape x_batch px py ;;
  let pch_x := fst patch_size in
  let pch_y := snd patch_size in
  pX <~ squeezed_patchify x_batch (pch_x, pch_y) ;;
  patchBatch <~
    for_range
      (fun patchBatch i =>
         for_range
           (fun patchBatch j =>
              _p <~ patch_row pX pch_x pch_y i j ;;
              Returns (patchBatch ++ [_p]))
           (seq 0 (n1 pX)) patchBatch)
      (seq 0 (n0 pX)) [] ;;
  patchBatch <~ concatenate_list patchBatch ;;
  if center then center_rows patchBatch else Returns patchBatch.

End Generate_patchify_patch_set.

End PatchUtils.

(* ------------------------------------------------------------------ *)
(** ** Further concrete inputs *)

Module Examples2.

(** Thresholds of 0.6 for a row of two units. *)
Definition high_thr : tensor := of_rows 2 [[0.6; 0.6]].

(** Two cells of two units with different threshold bases, and a disk with
    no file on which every path can be written. *)
Definition cell_a : WTAS.WTASCell :=
  WTAS.__init__ 2 1 1 0.4 0.002 0 0.05 (fun _ => 0) [].
Definition cell_b : WTAS.WTASCell :=
  WTAS.__init__ 2 1 1 0.7 0.002 0 0.05 (fun _ => 0) [].
Definition empty_disk : Persistence.disk :=
  Persistence.mkDisk (fun _ => true) (fun _ => None).

(** One image of four pixels, and an extraction that returns one patch: the
    top-left corner of the image. *)
Definition image4 : tensor := of_rows 4 [[1; 2; 3; 4]].
Definition corner (s : nat) (xs : tensor) (patch_size : nat * nat)
    (max_patches : nat) : PatchUtils.outcome PatchUtils.patches :=
  PatchUtils.Returns
    (PatchUtils.mkPatches 1 (fst patch_size) (snd patch_size)
       (fun _ a b => elt xs a b)).

(** Voltages of a row of two units: with the default cell and an Euler step
    of size 1 the first unit stays below the threshold 5 and the second
    goes above it. *)
Definition mixed_v : tensor := of_rows 2 [[3; 90]].

(** The resonate-and-fire cell of two units built with the selector "heun",
    holding the current [[1; 2]]. *)
Definition heun_cell : RAF.RAFCell :=
  RAF.set_j (RAF.__init__ 2 15 1 400 10 5 (-72) (-75) 0 (-1) (-70) 0 "heun" 1)
    Examples.two_j.

(** Two images of four pixels. *)
Definition images4 : tensor := of_rows 4 [[1; 2; 3; 4]; [5; 6; 7; 8]].

(** One image of sixteen pixels, and its cutting into the four tiles of size
    [2 x 2]. *)
Definition image16 : tensor :=
  of_rows 16 [[1; 2; 3; 4; 5; 6; 7; 8; 9; 10; 11; 12; 13; 14; 15; 16]].
Definition tiles (img : tensor) (patch_size : nat * nat)
  : PatchUtils.outcome PatchUtils.grid :=
  PatchUtils.Returns
    (PatchUtils.mkGrid 2 2 2 2 (fun i j a b => elt img (2 * i + a) (2 * j + b))).

End Examples2.

(* ------------------------------------------------------------------ *)
(** ** Broadcasting lemmas *)

Section Broadcasting.

Lemma bdim_refl (a : nat) : bdim a a = Some a.
Proof. unfold bdim. now rewrite Nat.eqb_refl. Qed.

Lemma bdim_1_l (a : nat) : bdim 1 a = Some a.
Proof.
  unfold bdim. destruct (Nat.eqb_spec 1 a) as [E | E]; [now rewrite E | reflexivity].
Qed.

Lemma bdim_1_r (a : nat) : bdim a 1 = Some a.
Proof.
  unfold bdim. destruct (Nat.eqb_spec a 1) as [E | E]; reflexivity.
Qed.

(** The result of broadcasting is compatible with both operands again. *)
Lemma bdim_absorb (a b c : nat) :
  bdim a b = Some c ->
  bdim a c = Some c /\ bdim c a = Some c /\ bdim b c = Some c /\ bdim c b = Some c.
Proof.
  unfold bdim.
  repeat match goal with
         | |- context [(?x =? ?y)%nat] => destruct (Nat.eqb_spec x y)
         end; intros H; inversion H; subst;
    repeat split; try reflexivity; try congruence; try lia.
Qed.

Lemma bdim_comm (a b : nat) : bdim a b = bdim b a.
Proof.
  unfold bdim.
  repeat match goal with
         | |- context [(?x =? ?y)%nat] => destruct (Nat.eqb_spec x y)
         end; subst; try reflexivity; try congruence; try lia.
Qed.

Lemma bdim_None (a b : nat) :
  bdim a b = None <-> (a <> b /\ a <> 1%nat /\ b <> 1%nat).
Proof.
  unfold bdim.
  destruct (Nat.eqb_spec a b), (Nat.eqb_spec a 1), (Nat.eqb_spec b 1);
    split; intros H; try discriminate; try reflexivity;
    try (repeat split; assumption); destruct H as (? & ? & ?); congruence.
Qed.

Lemma bidx_lt (d i : nat) : (i < d)%nat -> bidx d i = i.
Proof.
  unfold bidx. destruct (Nat.eqb_spec d 1); [lia | reflexivity].
Qed.

Lemma bidx_1 (i : nat) : bidx 1 i = O.
Proof. reflexivity. Qed.

Lemma zip_ok (f : R -> R -> R) (x y : tensor) (r c : nat) :
  bdim (rows x) (rows y) = Some r ->
  bdim (cols x) (cols y) = Some c ->
  zip f x y =
  Ok (mkTensor r c
        (fun i k => f (elt x (bidx (rows x) i) (bidx (cols x) k))
                      (elt y (bidx (rows y) i) (bidx (cols y) k)))).
Proof. unfold zip. now intros -> ->. Qed.

Lemma zip_fail_rows (f : R -> R -> R) (x y : tensor) :
  bdim (rows x) (rows y) = None -> zip f x y = ShapeMismatch.
Proof. unfold zip. now intros ->. Qed.

Lemma zip_fail_cols (f : R -> R -> R) (x y : tensor) :
  bdim (cols x) (cols y) = None -> zip f x y = ShapeMismatch.
Proof. unfold zip. intros ->. now destruct (bdim (rows x) (rows y)). Qed.

Lemma zip_is_ok (f : R -> R -> R) (x y : tensor) :
  is_ok (zip f x y) = compatible (shape x) (shape y).
Proof.
  unfold zip, compatible, shape. cbn [fst snd].
  destruct (bdim (rows x) (rows y)), (bdim (cols x) (cols y)); reflexivity.
Qed.

Lemma gtf_true (a b : R) : b < a -> gtf a b = 1.
Proof. unfold gtf. destruct (Rlt_dec b a); [reflexivity | contradiction]. Qed.

Lemma gtf_false (a b : R) : a <= b -> gtf a b = 0.
Proof. unfold gtf. destruct (Rlt_dec b a); [lra | reflexivity]. Qed.

Lemma gtf_01 (a b : R) : gtf a b = 0 \/ gtf a b = 1.
Proof. unfold gtf. destruct (Rlt_dec b a); auto. Qed.

Lemma gef_true (a b : R) : b <= a -> gef a b = 1.
Proof. unfold gef. destruct (Rle_dec b a); [reflexivity | contradiction]. Qed.

Lemma gef_false (a b : R) : a < b -> gef a b = 0.
Proof. unfold gef. destruct (Rle_dec b a); [lra | reflexivity]. Qed.

End Broadcasting.

Create HintDb bdim.
#[export] Hint Resolve bdim_refl bdim_1_l bdim_1_r : bdim.

(** Rewrite the leading broadcast operation of the goal to its result of
    shape [r x c]. *)
Ltac zip_to r c :=
  rewrite (zip_ok _ _ _ r c) by (simpl; auto with bdim); cbn [bind].


(* ------------------------------------------------------------------ *)
(** ** The winner-take-all cell: one step, element by element *)

Section WTAS_step.

Import ModelUtils.

Variables (dt tau_m R_m thr_gain refract_T : R).

(** With an input current of the shape of the state, [run_cell] returns, and
    each output element is given by the formulas of the source.  The threshold
    array has either one row (as built by the constructor) or one row per
    batch row (as returned by an earlier step). *)
Lemma run_cell_spec (j v0 rfr thr : tensor) (b n : nat) :
  rows j = b -> cols j = n -> rows rfr = b -> cols rfr = n ->
  cols thr = n -> (rows thr = 1%nat \/ rows thr = b) ->
  exists v' s' thr' rfr',
    WTAS.run_cell dt j v0 rfr thr tau_m R_m thr_gain refract_T = Ok (v', s', thr', rfr') /\
    (shape v' = (b, n) /\ shape s' = (b, n) /\
     shape thr' = (b, n) /\ shape rfr' = (b, n)) /\
    forall i k, (i < b)%nat -> (k < n)%nat ->
      elt v' i k = elt j i k * R_m * gef (elt rfr i k) refract_T /\
      elt s' i k = gtf (elt (softmax v') i k) (elt thr (bidx (rows thr) i) k) /\
      elt thr' i k =
        Rmax (elt thr (bidx (rows thr) i) k + (rowsum (elt s' i) n - 1) * thr_gain) 0.025 /\
      elt rfr' i k = (elt rfr i k + dt) * (1 - elt s' i k) + elt s' i k * dt.
Proof.
  intros Hjr Hjc Hrr Hrc Htc Htr.
  assert (Hb : bdim b (rows thr) = Some b)
    by (destruct Htr as [-> | ->]; [apply bdim_1_r | apply bdim_refl]).
  assert (Hb' : bdim (rows thr) b = Some b)
    by (destruct Htr as [-> | ->]; [apply bdim_1_l | apply bdim_refl]).
  unfold WTAS.run_cell, mul, gt, add.
  rewrite (zip_ok _ _ _ b n)
    by (cbn [rows cols scale ges map]; rewrite ?Hjr, ?Hjc, ?Hrr, ?Hrc; apply bdim_refl).
  cbn [bind].
  rewrite (zip_ok _ _ _ b n)
    by (cbn [rows cols softmax]; rewrite ?Htc; auto using bdim_refl).
  cbn [bind].
  rewrite (zip_ok _ _ _ b n)
    by (cbn [rows cols scale ssub sum_axis1 map]; rewrite ?Htc; auto using bdim_1_r).
  cbn [bind].
  rewrite (zip_ok _ _ _ b n)
    by (cbn [rows cols shift rsub map]; rewrite ?Hrr, ?Hrc; apply bdim_refl).
  cbn [bind].
  rewrite (zip_ok _ _ _ b n)
    by (cbn [rows cols scale map]; apply bdim_refl).
  cbn [bind].
  do 4 eexists. split; [reflexivity |].
  split; [repeat split |].
  intros i k Hi Hk.
  cbn [rows cols elt scale shift ssub rsub ges sum_axis1 maximum map softmax].
  rewrite ?Hjr, ?Hjc, ?Hrr, ?Hrc, ?Htc.
  rewrite ?(bidx_lt b i Hi), ?(bidx_lt n k Hk), ?bidx_1.
  repeat split; reflexivity.
Qed.

(** The same for the whole step: [_advance_state] adds the time of the last
    spike. *)
Lemma wtas_advance_spec (t : R) (j v0 s0 thr rfr tols : tensor) (b n : nat) :
  rows j = b -> cols j = n -> rows rfr = b -> cols rfr = n ->
  rows tols = b -> cols tols = n ->
  cols thr = n -> (rows thr = 1%nat \/ rows thr = b) ->
  exists v' s' thr' rfr' tols',
    WTAS._advance_state t dt tau_m R_m thr_gain refract_T j v0 s0 thr rfr tols
      = Ok (v', s', thr', rfr', tols') /\
    (shape v' = (b, n) /\ shape s' = (b, n) /\ shape thr' = (b, n) /\
     shape rfr' = (b, n) /\ shape tols' = (b, n)) /\
    forall i k, (i < b)%nat -> (k < n)%nat ->
      elt v' i k = elt j i k * R_m * gef (elt rfr i k) refract_T /\
      elt s' i k = gtf (elt (softmax v') i k) (elt thr (bidx (rows thr) i) k) /\
      elt thr' i k =
        Rmax (elt thr (bidx (rows thr) i) k + (rowsum (elt s' i) n - 1) * thr_gain) 0.025 /\
      elt rfr' i k = (elt rfr i k + dt) * (1 - elt s' i k) + elt s' i k * dt /\
      elt tols' i k = (1 - elt s' i k) * elt tols i k + elt s' i k * t.
Proof.
  intros Hjr Hjc Hrr Hrc Hlr Hlc Htc Htr.
  destruct (run_cell_spec j v0 rfr thr b n Hjr Hjc Hrr Hrc Htc Htr)
    as (v' & s' & thr' & rfr' & Hrun & (Hv & Hs & Hthr & Hrfr) & Helt).
  unfold WTAS._advance_state. rewrite Hrun. cbn [bind].
  injection Hs as Hsr Hsc.
  unfold WTAS.update_times, mul, add.
  rewrite (zip_ok _ _ _ b n)
    by (cbn [rows cols rsub map]; rewrite ?Hsr, ?Hsc, ?Hlr, ?Hlc; apply bdim_refl).
  cbn [bind].
  rewrite (zip_ok _ _ _ b n)
    by (cbn [rows cols scale map]; rewrite ?Hsr, ?Hsc; apply bdim_refl).
  cbn [bind].
  do 5 eexists. split; [reflexivity |].
  split; [repeat split; assumption || (now rewrite <- Hsr, <- Hsc) |].
  intros i k Hi Hk.
  destruct (Helt i k Hi Hk) as (E1 & E2 & E3 & E4).
  repeat split; try assumption.
  cbn [rows cols elt scale rsub map].
  rewrite ?Hsr, ?Hsc, ?Hlr, ?Hlc.
  now rewrite ?(bidx_lt b i Hi), ?(bidx_lt n k Hk).
Qed.

End WTAS_step.

(* ------------------------------------------------------------------ *)
(** ** The winner-take-all cell: properties *)

Section WTAS_properties.

Import ModelUtils.

(** C2, at a concrete input: a single unit that is still refractory
    ([rfr = 0.5 < refract_T = 1]) has voltage 0 after the step and spikes all
    the same, because its softmax share is 1 and exceeds the threshold 0.4. *)
Lemma wtas_refractory_unit_spikes :
  exists v' s' thr' rfr' tols',
    WTAS._advance_state 0.5 0.5 1 1 0.002 1
      Examples.one_j Examples.one_zero Examples.one_zero
      Examples.one_thr Examples.one_rfr Examples.one_zero
      = Ok (v', s', thr', rfr', tols') /\
    elt Examples.one_rfr 0 0 < 1 /\
    elt v' 0 0 = 0 /\
    elt s' 0 0 = 1.
Proof.
  destruct (wtas_advance_spec 0.5 1 1 0.002 1 0.5
              Examples.one_j Examples.one_zero Examples.one_zero
              Examples.one_thr Examples.one_rfr Examples.one_zero 1 1)
    as (v' & s' & thr' & rfr' & tols' & Hrun & (Hv & _) & Helt);
    try reflexivity; [now left |].
  exists v', s', thr', rfr', tols'.
  destruct (Helt 0%nat 0%nat) as (E1 & E2 & _); [lia | lia |].
  injection Hv as Hvr Hvc.
  assert (Ev : elt v' 0 0 = 0).
  { rewrite E1. cbn. rewrite gef_false by lra. lra. }
  repeat split; [assumption | cbn; lra | assumption |].
  rewrite E2. unfold softmax. cbn [elt]. rewrite Hvc. cbn [rowsum].
  rewrite Ev, exp_0. cbn.
  apply gtf_true. lra.
Qed.

(** C2, as amended: a unit whose refractory timer is below [refract_T] has
    voltage exactly 0 after the step; it spikes exactly when its share of the
    softmax of the row, [1 / sum_k exp(v_k)], exceeds its threshold. *)
Theorem wtas_refractory_unit
    (t dt tau_m R_m thr_gain refract_T : R) (j v0 s0 thr rfr tols : tensor)
    (b n : nat) :
  rows j = b -> cols j = n -> rows rfr = b -> cols rfr = n ->
  rows tols = b -> cols tols = n ->
  cols thr = n -> (rows thr = 1%nat \/ rows thr = b) ->
  exists v' s' thr' rfr' tols',
    WTAS._advance_state t dt tau_m R_m thr_gain refract_T j v0 s0 thr rfr tols
      = Ok (v', s', thr', rfr', tols') /\
    forall i k, (i < b)%nat -> (k < n)%nat ->
      elt rfr i k < refract_T ->
      elt v' i k = 0 /\
      elt s' i k =
        gtf (1 / rowsum (fun k' => exp (elt v' i k')) n)
            (elt thr (bidx (rows thr) i) k).
Proof.
  intros Hjr Hjc Hrr Hrc Hlr Hlc Htc Htr.
  destruct (wtas_advance_spec dt tau_m R_m thr_gain refract_T t
              j v0 s0 thr rfr tols b n Hjr Hjc Hrr Hrc Hlr Hlc Htc Htr)
    as (v' & s' & thr' & rfr' & tols' & Hrun & (Hv & _) & Helt).
  exists v', s', thr', rfr', tols'. split; [assumption |].
  intros i k Hi Hk Hrefr.
  destruct (Helt i k Hi Hk) as (E1 & E2 & _).
  injection Hv as Hvr Hvc.
  assert (Ev : elt v' i k = 0).
  { rewrite E1, gef_false by assumption. ring. }
  split; [assumption |].
  rewrite E2. unfold softmax. cbn [elt]. rewrite Hvc, Ev, exp_0. reflexivity.
Qed.

(** Whatever the shapes, a step that returns leaves no threshold element
    below the floor. *)
Lemma wtas_threshold_floor_any_step
    (t dt tau_m R_m thr_gain refract_T : R) (j v0 s0 thr rfr tols : tensor)
    (v' s' thr' rfr' tols' : tensor) :
  WTAS._advance_state t dt tau_m R_m thr_gain refract_T j v0 s0 thr rfr tols
    = Ok (v', s', thr', rfr', tols') ->
  forall i k, 0.025 <= elt thr' i k.
Proof.
  unfold WTAS._advance_state, WTAS.run_cell.
  destruct (mul (scale j R_m) (ges rfr refract_T)) as [v1 |];
    cbn [bind]; [| discriminate].
  destruct (gt (softmax v1) thr) as [s1 |]; cbn [bind]; [| discriminate].
  destruct (add thr (scale (ssub (sum_axis1 s1) 1) thr_gain)) as [thr1 |];
    cbn [bind]; [| discriminate].
  destruct (mul (shift rfr dt) (rsub 1 s1)) as [a |]; cbn [bind]; [| discriminate].
  destruct (add a (scale s1 dt)) as [rfr1 |]; cbn [bind]; [| discriminate].
  destruct (WTAS.update_times t s1 tols) as [tols1 |]; cbn [bind]; [| discriminate].
  intros H. injection H as <- <- <- <- <-.
  intros i k. cbn. apply Rmax_r.
Qed.

(** C4: after a step every element of the threshold array is
    [max(threshold + (row sum of spikes - 1) * thr_gain, 0.025)], hence at
    least 0.025. *)
Theorem wtas_threshold_floor
    (t dt tau_m R_m thr_gain refract_T : R) (j v0 s0 thr rfr tols : tensor)
    (b n : nat) :
  rows j = b -> cols j = n -> rows rfr = b -> cols rfr = n ->
  rows tols = b -> cols tols = n ->
  cols thr = n -> (rows thr = 1%nat \/ rows thr = b) ->
  exists v' s' thr' rfr' tols',
    WTAS._advance_state t dt tau_m R_m thr_gain refract_T j v0 s0 thr rfr tols
      = Ok (v', s', thr', rfr', tols') /\
    shape thr' = (b, n) /\
    forall i k, (i < b)%nat -> (k < n)%nat ->
      elt thr' i k =
        Rmax (elt thr (bidx (rows thr) i) k
              + (rowsum (elt s' i) n - 1) * thr_gain) 0.025 /\
      0.025 <= elt thr' i k.
Proof.
  intros Hjr Hjc Hrr Hrc Hlr Hlc Htc Htr.
  destruct (wtas_advance_spec dt tau_m R_m thr_gain refract_T t
              j v0 s0 thr rfr tols b n Hjr Hjc Hrr Hrc Hlr Hlc Htc Htr)
    as (v' & s' & thr' & rfr' & tols' & Hrun & (_ & _ & Hthr & _) & Helt).
  exists v', s', thr', rfr', tols'. repeat split; try assumption.
  - now destruct (Helt i k) as (_ & _ & E3 & _).
  - destruct (Helt i k) as (_ & _ & E3 & _); try assumption.
    rewrite E3. apply Rmax_r.
Qed.

(** The floor on a row of two units. *)
Lemma wtas_threshold_floor_witness :
  exists v' s' thr' rfr' tols',
    WTAS._advance_state 0 1 1 1 0.002 0
      Examples.two_j Examples.two_zero Examples.two_zero
      Examples.two_thr Examples.two_rfr Examples.two_zero
      = Ok (v', s', thr', rfr', tols') /\
    shape thr' = (1%nat, 2%nat) /\
    forall i k, (i < 1)%nat -> (k < 2)%nat ->
      elt thr' i k =
        Rmax (elt Examples.two_thr (bidx (rows Examples.two_thr) i) k
              + (rowsum (elt s' i) 2 - 1) * 0.002) 0.025 /\
      0.025 <= elt thr' i k.
Proof.
  apply (wtas_threshold_floor 0 1 1 1 0.002 0
           Examples.two_j Examples.two_zero Examples.two_zero
           Examples.two_thr Examples.two_rfr Examples.two_zero 1 2);
    try reflexivity.
  left; reflexivity.
Defined.

(** A row of two units, the first refractory and the second not. *)
Lemma wtas_refractory_unit_witness :
  exists v' s' thr' rfr' tols',
    WTAS._advance_state 0 1 1 1 0.002 1
      Examples.two_j Examples.two_zero Examples.two_zero
      Examples.two_thr Examples.two_rfr Examples.two_zero
      = Ok (v', s', thr', rfr', tols') /\
    forall i k, (i < 1)%nat -> (k < 2)%nat ->
      elt Examples.two_rfr i k < 1 ->
      elt v' i k = 0 /\
      elt s' i k =
        gtf (1 / rowsum (fun k' => exp (elt v' i k')) 2)
            (elt Examples.two_thr (bidx (rows Examples.two_thr) i) k).
Proof.
  apply (wtas_refractory_unit 0 1 1 1 0.002 1
           Examples.two_j Examples.two_zero Examples.two_zero
           Examples.two_thr Examples.two_rfr Examples.two_zero 1 2);
    try reflexivity.
  left; reflexivity.
Defined.

(** C9: [reset] sets input current, voltage and spikes to 0, the refractory
    timer to [refract_T] and the time of the last spike to 0, on arrays of
    shape [batch_size x n_units]; the threshold array is the one the cell
    had. *)
Theorem wtas_reset_frame (c : WTAS.WTASCell) :
  (shape (WTAS.j (WTAS.reset c)) = (WTAS.batch_size c, WTAS.n_units c) /\
   shape (WTAS.v (WTAS.reset c)) = (WTAS.batch_size c, WTAS.n_units c) /\
   shape (WTAS.s (WTAS.reset c)) = (WTAS.batch_size c, WTAS.n_units c) /\
   shape (WTAS.rfr (WTAS.reset c)) = (WTAS.batch_size c, WTAS.n_units c) /\
   shape (WTAS.tols (WTAS.reset c)) = (WTAS.batch_size c, WTAS.n_units c)) /\
  (forall i k,
     elt (WTAS.j (WTAS.reset c)) i k = 0 /\
     elt (WTAS.v (WTAS.reset c)) i k = 0 /\
     elt (WTAS.s (WTAS.reset c)) i k = 0 /\
     elt (WTAS.rfr (WTAS.reset c)) i k = WTAS.refract_T c /\
     elt (WTAS.tols (WTAS.reset c)) i k = 0) /\
  WTAS.thr (WTAS.reset c) = WTAS.thr c.
Proof.
  split; [| split].
  - repeat split.
  - intros i k. cbn. repeat split. apply Rplus_0_l.
  - reflexivity.
Qed.

(** C10: the step does not read [tau_m]: with all other arguments equal, two
    calls that differ in [tau_m] return the same result, for the static
    method and for the cell. *)
Theorem wtas_tau_m_irrelevant
    (t dt tau_m tau_m' R_m thr_gain refract_T : R) (j v0 s0 thr rfr tols : tensor)
    (c : WTAS.WTASCell) :
  WTAS._advance_state t dt tau_m R_m thr_gain refract_T j v0 s0 thr rfr tols
  = WTAS._advance_state t dt tau_m' R_m thr_gain refract_T j v0 s0 thr rfr tols
  /\
  fmap WTAS.outputs (WTAS.advance_state (WTAS.set_tau_m c tau_m') t dt)
  = fmap WTAS.outputs (WTAS.advance_state c t dt).
Proof.
  split; [reflexivity |].
  unfold WTAS.advance_state. cbn [WTAS.set_tau_m WTAS.tau_m WTAS.R_m WTAS.thr_gain
    WTAS.refract_T WTAS.j WTAS.v WTAS.s WTAS.thr WTAS.rfr WTAS.tols].
  change (WTAS._advance_state t dt tau_m' (WTAS.R_m c))
    with (WTAS._advance_state t dt (WTAS.tau_m c) (WTAS.R_m c)).
  destruct (WTAS._advance_state t dt (WTAS.tau_m c) (WTAS.R_m c) (WTAS.thr_gain c)
              (WTAS.refract_T c) (WTAS.j c) (WTAS.v c) (WTAS.s c) (WTAS.thr c)
              (WTAS.rfr c) (WTAS.tols c)) as [[[[[v' s'] thr'] rfr'] tols'] |];
    reflexivity.
Qed.

End WTAS_properties.

(* ------------------------------------------------------------------ *)
(** ** The resonate-and-fire cell: one step, element by element *)

Section RAF_step.

Import OdeUtils.

Variables (t dt tau_m R_m tau_w thr omega b v_rest v_reset w_reset : R).

(** The candidates of the Euler branch. *)
Lemma raf_integrate_euler (flag : nat) (j_ v w : tensor) (bs n : nat) :
  flag <> 1%nat ->
  shape j_ = (bs, n) -> shape v = (bs, n) -> shape w = (bs, n) ->
  exists _w _v,
    RAF.integrate flag dt tau_m tau_w omega b j_ v w = Ok (_w, _v) /\
    shape _w = (bs, n) /\ shape _v = (bs, n) /\
    forall i k, (i < bs)%nat -> (k < n)%nat ->
      elt _w i k =
        elt w i k + dt * RAF.dfw_elt (elt j_ i k) (elt v i k) (elt w i k) tau_w omega b /\
      elt _v i k =
        elt v i k + dt * RAF.dfv_elt (elt w i k) (elt v i k) tau_m omega b.
Proof.
  intros Hflag Hj Hv Hw.
  destruct j_ as [jr jc jf], v as [vr vc vf], w as [wr wc wf].
  injection Hj as -> ->. injection Hv as -> ->. injection Hw as -> ->.
  unfold RAF.integrate.
  destruct (Nat.eqb_spec flag 1) as [E | _]; [contradiction |].
  unfold step_euler, RAF._dfw, RAF._dfv, RAF._dfw_internal, RAF._dfv_internal,
    add, sub.
  repeat zip_to bs n.
  do 2 eexists. split; [reflexivity |].
  split; [reflexivity |]. split; [reflexivity |].
  intros i k Hi Hk. cbn [elt rows cols map scale lscale].
  rewrite ?(bidx_lt bs i Hi), ?(bidx_lt n k Hk).
  split; reflexivity.
Qed.

(** The candidates of the midpoint branch. *)
Lemma raf_integrate_midpoint (j_ v w : tensor) (bs n : nat) :
  shape j_ = (bs, n) -> shape v = (bs, n) -> shape w = (bs, n) ->
  exists _w _v,
    RAF.integrate 1 dt tau_m tau_w omega b j_ v w = Ok (_w, _v) /\
    shape _w = (bs, n) /\ shape _v = (bs, n) /\
    forall i k, (i < bs)%nat -> (k < n)%nat ->
      elt _w i k =
        elt w i k
        + dt * RAF.dfw_elt (elt j_ i k) (elt v i k)
                 (elt w i k
                  + dt / 2 * RAF.dfw_elt (elt j_ i k) (elt v i k) (elt w i k) tau_w omega b)
                 tau_w omega b /\
      elt _v i k =
        elt v i k
        + dt * RAF.dfv_elt (elt w i k)
                 (elt v i k
                  + dt / 2 * RAF.dfv_elt (elt w i k) (elt v i k) tau_m omega b)
                 tau_m omega b.
Proof.
  intros Hj Hv Hw.
  destruct j_ as [jr jc jf], v as [vr vc vf], w as [wr wc wf].
  injection Hj as -> ->. injection Hv as -> ->. injection Hw as -> ->.
  unfold RAF.integrate. cbn [Nat.eqb].
  unfold step_rk2, RAF._dfw, RAF._dfv, RAF._dfw_internal, RAF._dfv_internal,
    add, sub.
  repeat zip_to bs n.
  do 2 eexists. split; [reflexivity |].
  split; [reflexivity |]. split; [reflexivity |].
  intros i k Hi Hk. cbn [elt rows cols map scale lscale].
  rewrite ?(bidx_lt bs i Hi), ?(bidx_lt n k Hk).
  split; reflexivity.
Qed.

(** Whatever the branch, candidates of the shape of the state exist. *)
Lemma raf_integrate_ok (flag : nat) (j_ v w : tensor) (bs n : nat) :
  shape j_ = (bs, n) -> shape v = (bs, n) -> shape w = (bs, n) ->
  exists _w _v,
    RAF.integrate flag dt tau_m tau_w omega b j_ v w = Ok (_w, _v) /\
    shape _w = (bs, n) /\ shape _v = (bs, n).
Proof.
  intros Hj Hv Hw.
  destruct (Nat.eq_dec flag 1) as [-> | Hflag].
  - destruct (raf_integrate_midpoint j_ v w bs n Hj Hv Hw)
      as (_w & _v & H1 & H2 & H3 & _). eauto.
  - destruct (raf_integrate_euler flag j_ v w bs n Hflag Hj Hv Hw)
      as (_w & _v & H1 & H2 & H3 & _). eauto.
Qed.

(** The whole step, from the candidates on. *)
Lemma raf_advance_spec (flag : nat) (j v w tols _w _v : tensor) (bs n : nat) :
  RAF.integrate flag dt tau_m tau_w omega b (scale j R_m) v w = Ok (_w, _v) ->
  shape _w = (bs, n) -> shape _v = (bs, n) -> shape tols = (bs, n) ->
  exists v' w' s' tols',
    RAF._advance_state t dt tau_m R_m tau_w thr omega b v_rest v_reset w_reset
      flag j v w tols = Ok (j, v', w', s', tols') /\
    (shape v' = (bs, n) /\ shape w' = (bs, n) /\
     shape s' = (bs, n) /\ shape tols' = (bs, n)) /\
    forall i k, (i < bs)%nat -> (k < n)%nat ->
      elt s' i k = gtf (elt _v i k) thr /\
      elt v' i k = elt _v i k * (1 - elt s' i k) + elt s' i k * v_reset /\
      elt w' i k = elt _w i k * (1 - elt s' i k) + elt s' i k * w_reset /\
      elt tols' i k = (1 - elt s' i k) * elt tols i k + elt s' i k * t.
Proof.
  intros Hint Hw Hv Hl.
  unfold RAF._advance_state. rewrite Hint. cbn [bind].
  destruct _w as [wr wc wf], _v as [vr vc vf], tols as [lr lc lf].
  injection Hw as -> ->. injection Hv as -> ->. injection Hl as -> ->.
  unfold RAF._update_times, RAF._emit_spike, mul, add.
  repeat zip_to bs n.
  do 4 eexists. split; [reflexivity |].
  split; [repeat split |].
  intros i k Hi Hk. cbn [elt rows cols map scale rsub gts].
  rewrite ?(bidx_lt bs i Hi), ?(bidx_lt n k Hk).
  repeat split; reflexivity.
Qed.

(** The candidates, whatever the branch, in terms of the state before the
    step. *)
Lemma raf_integrate_spec (flag : nat) (j_ v w : tensor) (bs n : nat) :
  shape j_ = (bs, n) -> shape v = (bs, n) -> shape w = (bs, n) ->
  exists _w _v,
    RAF.integrate flag dt tau_m tau_w omega b j_ v w = Ok (_w, _v) /\
    shape _w = (bs, n) /\ shape _v = (bs, n) /\
    forall i k, (i < bs)%nat -> (k < n)%nat ->
      elt _w i k =
        RAF.cand_w flag dt (elt j_ i k) (elt v i k) (elt w i k) tau_w omega b /\
      elt _v i k =
        RAF.cand_v flag dt (elt w i k) (elt v i k) tau_m omega b.
Proof.
  intros Hj Hv Hw. unfold RAF.cand_w, RAF.cand_v.
  destruct (Nat.eqb_spec flag 1) as [-> | Hflag].
  - apply raf_integrate_midpoint; assumption.
  - apply raf_integrate_euler; assumption.
Qed.

(** The voltage candidate is the same array whatever the input current, the
    membrane resistance and the time constant of the driver: it cannot have
    been computed from the driver candidate, which depends on them. *)
Lemma raf_voltage_candidate_ignores_current
    (flag : nat) (j j2 v w : tensor) (tau_w2 : R) (bs n : nat) :
  shape j = (bs, n) -> shape j2 = (bs, n) ->
  shape v = (bs, n) -> shape w = (bs, n) ->
  exists _w _w2 _v,
    RAF.integrate flag dt tau_m tau_w omega b j v w = Ok (_w, _v) /\
    RAF.integrate flag dt tau_m tau_w2 omega b j2 v w = Ok (_w2, _v).
Proof.
  intros Hj Hj2 Hv Hw.
  destruct j as [jr jc jf], j2 as [jr2 jc2 jf2], v as [vr vc vf], w as [wr wc wf].
  injection Hj as -> ->. injection Hj2 as -> ->.
  injection Hv as -> ->. injection Hw as -> ->.
  unfold RAF.integrate.
  destruct (Nat.eqb_spec flag 1) as [_ | _];
    unfold step_rk2, step_euler, RAF._dfw, RAF._dfv, RAF._dfw_internal,
      RAF._dfv_internal, add, sub;
    repeat zip_to bs n;
    do 3 eexists; split; reflexivity.
Qed.

End RAF_step.

(* ------------------------------------------------------------------ *)
(** ** The resonate-and-fire cell: properties *)

Section RAF_properties.

Import OdeUtils.

(** The default cell with Euler steps on the voltages [3] and [90]: the
    first unit does not spike, the second does. *)
Lemma raf_mixed_row_spikes (_w _v v' w' s' tols' : tensor) :
  RAF.integrate 0 1 15 400 10 (-1) (scale Examples.two_j 1)
    Examples2.mixed_v Examples.two_zero = Ok (_w, _v) ->
  RAF._advance_state 0 1 15 1 400 5 10 (-1) (-72) (-75) 0
    0 Examples.two_j Examples2.mixed_v Examples.two_zero Examples.two_zero
    = Ok (Examples.two_j, v', w', s', tols') ->
  elt s' 0 0 = 0 /\ elt s' 0 1 = 1.
Proof.
  intros Hint Hrun.
  destruct (raf_integrate_spec 1 15 400 10 (-1) 0 (scale Examples.two_j 1)
              Examples2.mixed_v Examples.two_zero 1 2)
    as (_w2 & _v2 & Hint2 & Hsw & Hsv & Hc); try reflexivity.
  rewrite Hint in Hint2. injection Hint2 as <- <-.
  destruct (raf_advance_spec 0 1 15 1 400 5 10 (-1) (-72) (-75) 0 0
              Examples.two_j Examples2.mixed_v Examples.two_zero
              Examples.two_zero _w _v 1 2 Hint Hsw Hsv eq_refl)
    as (v2 & w2 & s2 & tols2 & Hrun2 & _ & Helt).
  rewrite Hrun in Hrun2. injection Hrun2 as <- <- <- <-.
  destruct (Helt 0%nat 0%nat) as (Es0 & _); [lia | lia |].
  destruct (Helt 0%nat 1%nat) as (Es1 & _); [lia | lia |].
  destruct (Hc 0%nat 0%nat) as (_ & Cv0); [lia | lia |].
  destruct (Hc 0%nat 1%nat) as (_ & Cv1); [lia | lia |].
  rewrite Es0, Es1, Cv0, Cv1.
  unfold RAF.cand_v, RAF.dfv_elt. cbn.
  split; [apply gtf_false | apply gtf_true]; lra.
Qed.

(** C3: with non-zero time constants, where the emitted spike is 1 the new
    voltage is [v_reset] and the new angular driver is [w_reset]; where it is
    0 they are the candidates the integrator returned; every spike is 0
    or 1. *)
Theorem raf_hyperpolarization
    (t dt tau_m R_m tau_w thr omega b v_rest v_reset w_reset : R)
    (flag : nat) (j v w tols : tensor) (bs n : nat) :
  tau_m <> 0 -> tau_w <> 0 ->
  shape j = (bs, n) -> shape v = (bs, n) -> shape w = (bs, n) ->
  shape tols = (bs, n) ->
  exists _w _v v' w' s' tols',
    RAF.integrate flag dt tau_m tau_w omega b (scale j R_m) v w = Ok (_w, _v) /\
    RAF._advance_state t dt tau_m R_m tau_w thr omega b v_rest v_reset w_reset
      flag j v w tols = Ok (j, v', w', s', tols') /\
    forall i k, (i < bs)%nat -> (k < n)%nat ->
      (elt s' i k = 1 -> elt v' i k = v_reset /\ elt w' i k = w_reset) /\
      (elt s' i k = 0 -> elt v' i k = elt _v i k /\ elt w' i k = elt _w i k) /\
      (elt s' i k = 0 \/ elt s' i k = 1).
Proof.
  intros _ _ Hj Hv Hw Hl.
  destruct (raf_integrate_ok dt tau_m tau_w omega b flag (scale j R_m) v w bs n)
    as (_w & _v & Hint & Hsw & Hsv); try assumption.
  destruct (raf_advance_spec t dt tau_m R_m tau_w thr omega b v_rest v_reset
              w_reset flag j v w tols _w _v bs n Hint Hsw Hsv Hl)
    as (v' & w' & s' & tols' & Hrun & _ & Helt).
  exists _w, _v, v', w', s', tols'. do 2 (split; [assumption |]).
  intros i k Hi Hk.
  destruct (Helt i k Hi Hk) as (Es & Ev & Ew & _).
  split; [| split].
  - intros H1. rewrite Ev, Ew, H1. split; ring.
  - intros H0. rewrite Ev, Ew, H0. split; ring.
  - rewrite Es. apply gtf_01.
Qed.

(** The default cell, Euler steps, on a row of two units of which the second
    spikes: it is reset to [v_reset = -75] and [w_reset = 0], while the first
    keeps its candidates. *)
Lemma raf_hyperpolarization_witness :
  exists _w _v v' w' s' tols',
    RAF.integrate 0 1 15 400 10 (-1) (scale Examples.two_j 1)
      Examples2.mixed_v Examples.two_zero = Ok (_w, _v) /\
    RAF._advance_state 0 1 15 1 400 5 10 (-1) (-72) (-75) 0
      0 Examples.two_j Examples2.mixed_v Examples.two_zero Examples.two_zero
      = Ok (Examples.two_j, v', w', s', tols') /\
    (elt s' 0 1 = 1 /\ elt v' 0 1 = -75 /\ elt w' 0 1 = 0) /\
    (elt s' 0 0 = 0 /\ elt v' 0 0 = elt _v 0 0 /\ elt w' 0 0 = elt _w 0 0).
Proof.
  destruct (raf_hyperpolarization 0 1 15 1 400 5 10 (-1) (-72) (-75) 0
              0 Examples.two_j Examples2.mixed_v Examples.two_zero
              Examples.two_zero 1 2)
    as (_w & _v & v' & w' & s' & tols' & Hint & Hrun & Hprop);
    try reflexivity; try lra.
  exists _w, _v, v', w', s', tols'. do 2 (split; [assumption |]).
  destruct (raf_mixed_row_spikes _w _v v' w' s' tols' Hint Hrun) as (S0 & S1).
  destruct (Hprop 0%nat 1%nat) as (Hspike & _); [lia | lia |].
  destruct (Hprop 0%nat 0%nat) as (_ & Hquiet & _); [lia | lia |].
  split.
  - split; [exact S1 | exact (Hspike S1)].
  - split; [exact S0 | exact (Hquiet S0)].
Defined.

(** C5: with non-zero time constants, for the Euler and for the midpoint
    configuration, the step returns,
    and the spike, the voltage and the angular driver of every unit come from
    candidates computed from the values before the step: the driver candidate
    from the old voltage, the voltage candidate from the old driver. *)
Theorem raf_candidates_from_prestep_state
    (t dt tau_m R_m tau_w thr omega b v_rest v_reset w_reset : R)
    (flag : nat) (j v w tols : tensor) (bs n : nat) :
  tau_m <> 0 -> tau_w <> 0 ->
  shape j = (bs, n) -> shape v = (bs, n) -> shape w = (bs, n) ->
  shape tols = (bs, n) ->
  exists v' w' s' tols',
    RAF._advance_state t dt tau_m R_m tau_w thr omega b v_rest v_reset w_reset
      flag j v w tols = Ok (j, v', w', s', tols') /\
    forall i k, (i < bs)%nat -> (k < n)%nat ->
      let cw := RAF.cand_w flag dt (elt j i k * R_m) (elt v i k) (elt w i k)
                  tau_w omega b in
      let cv := RAF.cand_v flag dt (elt w i k) (elt v i k) tau_m omega b in
      elt s' i k = gtf cv thr /\
      elt v' i k = cv * (1 - elt s' i k) + elt s' i k * v_reset /\
      elt w' i k = cw * (1 - elt s' i k) + elt s' i k * w_reset.
Proof.
  intros _ _ Hj Hv Hw Hl.
  destruct (raf_integrate_spec dt tau_m tau_w omega b flag (scale j R_m) v w bs n)
    as (_w & _v & Hint & Hsw & Hsv & Hc); try assumption.
  destruct (raf_advance_spec t dt tau_m R_m tau_w thr omega b v_rest v_reset
              w_reset flag j v w tols _w _v bs n Hint Hsw Hsv Hl)
    as (v' & w' & s' & tols' & Hrun & _ & Helt).
  exists v', w', s', tols'. split; [assumption |].
  intros i k Hi Hk.
  destruct (Helt i k Hi Hk) as (Es & Ev & Ew & _).
  destruct (Hc i k Hi Hk) as (Cw & Cv).
  cbn [elt scale map] in Cw.
  cbv zeta. rewrite <- Cw, <- Cv. auto.
Qed.

(** The default cell on a row of two units, midpoint steps. *)
Lemma raf_candidates_from_prestep_state_witness :
  exists v' w' s' tols',
    RAF._advance_state 0 1 15 1 400 5 10 (-1) (-72) (-75) 0
      1 Examples.two_j Examples.two_v Examples.two_zero Examples.two_zero
      = Ok (Examples.two_j, v', w', s', tols') /\
    forall i k, (i < 1)%nat -> (k < 2)%nat ->
      let cw := RAF.cand_w 1 1 (elt Examples.two_j i k * 1)
                  (elt Examples.two_v i k) (elt Examples.two_zero i k)
                  400 10 (-1) in
      let cv := RAF.cand_v 1 1 (elt Examples.two_zero i k)
                  (elt Examples.two_v i k) 15 10 (-1) in
      elt s' i k = gtf cv 5 /\
      elt v' i k = cv * (1 - elt s' i k) + elt s' i k * (-75) /\
      elt w' i k = cw * (1 - elt s' i k) + elt s' i k * 0.
Proof.
  apply (raf_candidates_from_prestep_state 0 1 15 1 400 5 10 (-1) (-72) (-75) 0
           1 Examples.two_j Examples.two_v Examples.two_zero Examples.two_zero 1 2);
    try reflexivity; lra.
Defined.

End RAF_properties.

(* ------------------------------------------------------------------ *)
(** ** When does a step fail? *)

Section Shape_errors.

Import OdeUtils ModelUtils.

(** Solve the goal by rewriting every broadcast operation in turn, trying
    the shapes that can occur. *)
Ltac zips bs n B N :=
  repeat first [ zip_to bs n | zip_to B N | zip_to B n ].

(** A step of the resonate-and-fire cell fails exactly when the shape of the
    input current cannot be broadcast against the shape of the state. *)
Lemma raf_advance_is_ok
    (t dt tau_m R_m tau_w thr omega b v_rest v_reset w_reset : R)
    (flag : nat) (j v w tols : tensor) (bs n : nat) :
  shape v = (bs, n) -> shape w = (bs, n) -> shape tols = (bs, n) ->
  is_ok (RAF._advance_state t dt tau_m R_m tau_w thr omega b v_rest v_reset
           w_reset flag j v w tols)
  = compatible (shape j) (bs, n).
Proof.
  intros Hv Hw Hl.
  destruct j as [jr jc jf], v as [vr vc vf], w as [wr wc wf], tols as [lr lc lf].
  injection Hv as -> ->. injection Hw as -> ->. injection Hl as -> ->.
  unfold compatible. cbn [shape rows cols fst snd].
  unfold RAF._advance_state, RAF.integrate.
  destruct (bdim jr bs) as [B |] eqn:Er.
  2:{ assert (Er' : bdim bs jr = None) by (now rewrite bdim_comm).
      destruct (Nat.eqb_spec flag 1) as [_ | _];
        unfold step_rk2, step_euler, RAF._dfw, RAF._dfw_internal, add, sub;
        zip_to bs n; rewrite zip_fail_rows by (simpl; assumption);
        reflexivity. }
  destruct (bdim jc n) as [N |] eqn:Ec.
  2:{ assert (Ec' : bdim n jc = None) by (now rewrite bdim_comm).
      destruct (Nat.eqb_spec flag 1) as [_ | _];
        unfold step_rk2, step_euler, RAF._dfw, RAF._dfw_internal, add, sub;
        zip_to bs n; rewrite zip_fail_cols by (simpl; assumption);
        reflexivity. }
  destruct (bdim_absorb _ _ _ Er) as (R1 & R2 & R3 & R4).
  destruct (bdim_absorb _ _ _ Ec) as (C1 & C2 & C3 & C4).
  assert (Er' : bdim bs jr = Some B) by (now rewrite bdim_comm).
  assert (Ec' : bdim n jc = Some N) by (now rewrite bdim_comm).
  destruct (Nat.eqb_spec flag 1) as [_ | _];
    unfold step_rk2, step_euler, RAF._dfw, RAF._dfv, RAF._dfw_internal,
      RAF._dfv_internal, RAF._update_times, RAF._emit_spike, add, sub, mul;
    zips bs n B N; reflexivity.
Qed.

(** The same for the winner-take-all cell. *)
Lemma wtas_advance_is_ok
    (t dt tau_m R_m thr_gain refract_T : R) (j v0 s0 thr rfr tols : tensor)
    (bs n : nat) :
  shape rfr = (bs, n) -> shape tols = (bs, n) ->
  cols thr = n -> (rows thr = 1%nat \/ rows thr = bs) ->
  is_ok (WTAS._advance_state t dt tau_m R_m thr_gain refract_T
           j v0 s0 thr rfr tols)
  = compatible (shape j) (bs, n).
Proof.
  intros Hr Hl Htc Htr.
  destruct j as [jr jc jf], thr as [tr tc tf], rfr as [rr rc rf],
    tols as [lr lc lf].
  injection Hr as -> ->. injection Hl as -> ->. cbn [rows cols] in Htc, Htr.
  subst tc.
  unfold compatible. cbn [shape rows cols fst snd].
  unfold WTAS._advance_state, WTAS.run_cell, mul.
  destruct (bdim jr bs) as [B |] eqn:Er.
  2:{ rewrite zip_fail_rows by (simpl; assumption). reflexivity. }
  destruct (bdim jc n) as [N |] eqn:Ec.
  2:{ rewrite zip_fail_cols by (simpl; assumption). reflexivity. }
  destruct (bdim_absorb _ _ _ Er) as (R1 & R2 & R3 & R4).
  destruct (bdim_absorb _ _ _ Ec) as (C1 & C2 & C3 & C4).
  unfold WTAS.update_times, gt, add, mul.
  destruct Htr as [-> | ->]; zips bs n B N; reflexivity.
Qed.

(** C7, at a concrete input: a current of shape [3 x 2] handed to cells
    whose state has shape [1 x 2] does not make the step fail; the step
    completes by broadcasting, for both cells. *)
Lemma advance_broadcasts_mismatched_current :
  shape Examples.wide_j = (3%nat, 2%nat) /\
  shape Examples.two_v = (1%nat, 2%nat) /\
  shape Examples.two_rfr = (1%nat, 2%nat) /\
  is_ok (RAF._advance_state 0 1 15 1 400 5 10 (-1) (-72) (-75) 0 0
           Examples.wide_j Examples.two_v Examples.two_zero Examples.two_zero)
  = true /\
  is_ok (WTAS._advance_state 0 1 1 1 0.002 0
           Examples.wide_j Examples.two_zero Examples.two_zero
           Examples.two_thr Examples.two_rfr Examples.two_zero)
  = true.
Proof.
  do 3 (split; [reflexivity |]). split.
  - rewrite (raf_advance_is_ok _ _ _ _ _ _ _ _ _ _ _ _ _ _ _ _ 1 2);
      reflexivity.
  - rewrite (wtas_advance_is_ok _ _ _ _ _ _ _ _ _ _ _ _ 1 2);
      try reflexivity.
    now left.
Qed.

(** C7, as amended: a step fails with a shape error exactly when the shape
    of the input current cannot be broadcast against the shape of the state
    (on some axis the sizes differ and neither is 1); a current of a
    different but broadcastable shape is accepted. *)
Theorem advance_fails_iff_not_broadcastable
    (t dt tau_m R_m tau_w thr omega b v_rest v_reset w_reset : R)
    (thr_gain refract_T : R) (flag : nat)
    (j v w tols v0 s0 thr_a rfr : tensor) (bs n : nat) :
  shape v = (bs, n) -> shape w = (bs, n) -> shape tols = (bs, n) ->
  shape rfr = (bs, n) ->
  cols thr_a = n -> (rows thr_a = 1%nat \/ rows thr_a = bs) ->
  is_ok (RAF._advance_state t dt tau_m R_m tau_w thr omega b v_rest v_reset
           w_reset flag j v w tols)
  = compatible (shape j) (bs, n)
  /\
  is_ok (WTAS._advance_state t dt tau_m R_m thr_gain refract_T
           j v0 s0 thr_a rfr tols)
  = compatible (shape j) (bs, n).
Proof.
  intros Hv Hw Hl Hr Htc Htr. split.
  - apply raf_advance_is_ok; assumption.
  - apply wtas_advance_is_ok; assumption.
Qed.

(** A current of shape [1 x 1] against a state of shape [1 x 2]. *)
Lemma advance_fails_iff_not_broadcastable_witness :
  is_ok (RAF._advance_state 0 1 15 1 400 5 10 (-1) (-72) (-75) 0 1
           Examples.one_j Examples.two_v Examples.two_zero Examples.two_zero)
  = compatible (shape Examples.one_j) (1%nat, 2%nat)
  /\
  is_ok (WTAS._advance_state 0 1 15 1 0.002 0
           Examples.one_j Examples.two_zero Examples.two_zero
           Examples.two_thr Examples.two_rfr Examples.two_zero)
  = compatible (shape Examples.one_j) (1%nat, 2%nat).
Proof.
  apply (advance_fails_iff_not_broadcastable 0 1 15 1 400 5 10 (-1) (-72) (-75) 0
           0.002 0 1 Examples.one_j Examples.two_v Examples.two_zero
           Examples.two_zero Examples.two_zero Examples.two_zero
           Examples.two_thr Examples.two_rfr 1 2);
    try reflexivity.
  left; reflexivity.
Defined.

End Shape_errors.

(* ------------------------------------------------------------------ *)
(** ** Construction: integrator selection and allocation *)

Section Construction.

Import OdeUtils.

(** Every flag other than 1 selects the Euler branch. *)
Lemma raf_integrate_not_midpoint
    (flag : nat) (dt tau_m tau_w omega b : R) (j_ v w : tensor) :
  flag <> 1%nat ->
  RAF.integrate flag dt tau_m tau_w omega b j_ v w =
  ('(_, _w) <- step_euler 0 w RAF._dfw dt (j_, v, tau_w, omega, b) ;;
   '(_, _v) <- step_euler 0 v RAF._dfv dt (j_, w, tau_m, omega, b) ;;
   Ok (_w, _v)).
Proof.
  intros Hflag. unfold RAF.integrate.
  destruct (Nat.eqb_spec flag 1); [contradiction | reflexivity].
Qed.

Lemma get_integrator_code_other (sel : string) :
  sel <> "midpoint"%string -> sel <> "rk2"%string ->
  get_integrator_code sel = 0%nat.
Proof.
  intros H1 H2. unfold get_integrator_code.
  apply String.eqb_neq in H1. apply String.eqb_neq in H2.
  now rewrite H1, H2.
Qed.

(** C6: a selector other than "euler", "midpoint" and "rk2" is accepted by
    the constructor, which stores flag 0.  With that flag the step is the
    Euler program: two calls of [step_euler], then spike emission and reset.
    For the cell in any state it can be in (the flag of the constructor, the
    allocated layout, non-zero time constants) the step returns, keeps the
    flag, and every unit is updated from the first-order candidates
    [w + dt * dw/dt] and [v + dt * dv/dt], the derivatives taken at the
    values before the step. *)
Theorem raf_unrecognised_selector_is_euler
    (sel : string) (n_units bs : nat)
    (tau_m resist_m tau_w omega thr v_rest v_reset w_reset b v0 w0 : R) :
  sel <> "euler"%string -> sel <> "midpoint"%string -> sel <> "rk2"%string ->
  RAF.intgFlag (RAF.__init__ n_units tau_m resist_m tau_w omega thr v_rest v_reset
                  w_reset b v0 w0 sel bs) = 0%nat /\
  (forall t dt j v w tols,
     RAF._advance_state t dt tau_m resist_m tau_w thr omega b v_rest v_reset
       w_reset
       (RAF.intgFlag (RAF.__init__ n_units tau_m resist_m tau_w omega thr v_rest
                        v_reset w_reset b v0 w0 sel bs))
       j v w tols
     = (let j_ := scale j resist_m in
        '(_, _w) <- step_euler 0 w RAF._dfw dt (j_, v, tau_w, omega, b) ;;
        '(_, _v) <- step_euler 0 v RAF._dfv dt (j_, w, tau_m, omega, b) ;;
        let s := RAF._emit_spike _v thr in
        a <- mul _v (rsub 1 s) ;;
        v' <- add a (scale s v_reset) ;;
        a <- mul _w (rsub 1 s) ;;
        w' <- add a (scale s w_reset) ;;
        tols' <- RAF._update_times t s tols ;;
        Ok (j, v', w', s, tols'))) /\
  (forall c t dt,
     RAF.intgFlag c
     = RAF.intgFlag (RAF.__init__ n_units tau_m resist_m tau_w omega thr v_rest
                       v_reset w_reset b v0 w0 sel bs) ->
     RAF.allocated bs n_units c ->
     RAF.tau_m c <> 0 -> RAF.tau_w c <> 0 ->
     exists c',
       RAF.advance_state c t dt = Ok c' /\
       RAF.intgFlag c' = RAF.intgFlag c /\
       forall i k, (i < bs)%nat -> (k < n_units)%nat ->
         let cw :=
           elt (RAF.w c) i k
           + dt * RAF.dfw_elt (elt (RAF.j c) i k * RAF.R_m c) (elt (RAF.v c) i k)
                    (elt (RAF.w c) i k) (RAF.tau_w c) (RAF.omega c) (RAF.b c) in
         let cv :=
           elt (RAF.v c) i k
           + dt * RAF.dfv_elt (elt (RAF.w c) i k) (elt (RAF.v c) i k)
                    (RAF.tau_m c) (RAF.omega c) (RAF.b c) in
         elt (RAF.s c') i k = gtf cv (RAF.thr c) /\
         elt (RAF.v c') i k
         = cv * (1 - elt (RAF.s c') i k) + elt (RAF.s c') i k * RAF.v_reset c /\
         elt (RAF.w c') i k
         = cw * (1 - elt (RAF.s c') i k) + elt (RAF.s c') i k * RAF.w_reset c).
Proof.
  intros _ Hm Hr.
  pose proof (get_integrator_code_other sel Hm Hr) as Hc.
  cbn [RAF.__init__ RAF.intgFlag]. rewrite Hc.
  split; [reflexivity | split].
  - intros t dt j v w tols. unfold RAF._advance_state, RAF.integrate.
    cbn [Nat.eqb]. cbv zeta.
    destruct (step_euler 0 w RAF._dfw dt (scale j resist_m, v, tau_w, omega, b))
      as [[t1 _w] |]; cbn [bind]; [| reflexivity].
    destruct (step_euler 0 v RAF._dfv dt (scale j resist_m, w, tau_m, omega, b))
      as [[t2 _v] |]; cbn [bind]; reflexivity.
  - intros c t dt Hflag (Hb & Hn & Hj & Hv & Hw & Hs & Hl) _ _.
    destruct (raf_integrate_spec dt (RAF.tau_m c) (RAF.tau_w c) (RAF.omega c)
                (RAF.b c) (RAF.intgFlag c) (scale (RAF.j c) (RAF.R_m c))
                (RAF.v c) (RAF.w c) bs n_units)
      as (_w & _v & Hint & Hsw & Hsv & Hcand); try assumption.
    destruct (raf_advance_spec t dt (RAF.tau_m c) (RAF.R_m c) (RAF.tau_w c)
                (RAF.thr c) (RAF.omega c) (RAF.b c) (RAF.v_rest c)
                (RAF.v_reset c) (RAF.w_reset c) (RAF.intgFlag c)
                (RAF.j c) (RAF.v c) (RAF.w c) (RAF.tols c) _w _v bs n_units
                Hint Hsw Hsv Hl)
      as (v' & w' & s' & tols' & Hrun & _ & Helt).
    unfold RAF.advance_state. rewrite Hrun. cbn [bind].
    eexists. split; [reflexivity |]. split; [reflexivity |].
    intros i k Hi Hk. cbn [RAF.s RAF.v RAF.w].
    destruct (Helt i k Hi Hk) as (Es & Ev & Ew & _).
    destruct (Hcand i k Hi Hk) as (Cw & Cv).
    cbn [elt scale map] in Cw.
    unfold RAF.cand_w in Cw. unfold RAF.cand_v in Cv.
    rewrite Hflag in Cw, Cv. cbn [Nat.eqb] in Cw, Cv.
    cbv zeta. rewrite <- Cw, <- Cv. auto.
Qed.

(** The selector "heun": the cell of two units built with it takes its first
    step, with the current [[1; 2]], as an Euler step. *)
Lemma raf_unrecognised_selector_is_euler_witness :
  RAF.intgFlag (RAF.__init__ 2 15 1 400 10 5 (-72) (-75) 0 (-1) (-70) 0
                  "heun" 1) = 0%nat /\
  exists c',
    RAF.advance_state Examples2.heun_cell 0 1 = Ok c' /\
    RAF.intgFlag c' = RAF.intgFlag Examples2.heun_cell /\
    forall i k, (i < 1)%nat -> (k < 2)%nat ->
      let cw :=
        elt (RAF.w Examples2.heun_cell) i k
        + 1 * RAF.dfw_elt
                (elt (RAF.j Examples2.heun_cell) i k * RAF.R_m Examples2.heun_cell)
                (elt (RAF.v Examples2.heun_cell) i k)
                (elt (RAF.w Examples2.heun_cell) i k)
                (RAF.tau_w Examples2.heun_cell) (RAF.omega Examples2.heun_cell)
                (RAF.b Examples2.heun_cell) in
      let cv :=
        elt (RAF.v Examples2.heun_cell) i k
        + 1 * RAF.dfv_elt (elt (RAF.w Examples2.heun_cell) i k)
                (elt (RAF.v Examples2.heun_cell) i k)
                (RAF.tau_m Examples2.heun_cell) (RAF.omega Examples2.heun_cell)
                (RAF.b Examples2.heun_cell) in
      elt (RAF.s c') i k = gtf cv (RAF.thr Examples2.heun_cell) /\
      elt (RAF.v c') i k
      = cv * (1 - elt (RAF.s c') i k)
        + elt (RAF.s c') i k * RAF.v_reset Examples2.heun_cell /\
      elt (RAF.w c') i k
      = cw * (1 - elt (RAF.s c') i k)
        + elt (RAF.s c') i k * RAF.w_reset Examples2.heun_cell.
Proof.
  destruct (raf_unrecognised_selector_is_euler "heun" 2 1
              15 1 400 10 5 (-72) (-75) 0 (-1) (-70) 0)
    as (Hflag & _ & Hcell); try discriminate.
  split; [exact Hflag |].
  apply (Hcell Examples2.heun_cell 0 1).
  - reflexivity.
  - unfold RAF.allocated. cbn. repeat split.
  - cbn. lra.
  - cbn. lra.
Defined.

(** [reset] and a step with a current of the allocated shape keep the layout
    of a resonate-and-fire cell. *)
Lemma raf_reset_allocated (c : RAF.RAFCell) (bs n : nat) :
  RAF.allocated bs n c -> RAF.allocated bs n (RAF.reset c).
Proof.
  intros (Hb & Hn & _). unfold RAF.allocated, RAF.reset. cbn.
  rewrite Hb, Hn. repeat split.
Qed.

Lemma raf_set_j_allocated (c : RAF.RAFCell) (x : tensor) (bs n : nat) :
  RAF.allocated bs n c -> shape x = (bs, n) ->
  RAF.allocated bs n (RAF.set_j c x).
Proof.
  intros (Hb & Hn & _ & Hv & Hw & Hs & Hl) Hx.
  unfold RAF.allocated. cbn. repeat split; assumption.
Qed.

Lemma raf_advance_allocated (c : RAF.RAFCell) (t dt : R) (bs n : nat) :
  RAF.allocated bs n c ->
  exists c', RAF.advance_state c t dt = Ok c' /\ RAF.allocated bs n c'.
Proof.
  intros (Hb & Hn & Hj & Hv & Hw & Hs & Hl).
  destruct (raf_integrate_ok dt (RAF.tau_m c) (RAF.tau_w c) (RAF.omega c)
              (RAF.b c) (RAF.intgFlag c) (scale (RAF.j c) (RAF.R_m c))
              (RAF.v c) (RAF.w c) bs n)
    as (_w & _v & Hint & Hsw & Hsv); try assumption.
  destruct (raf_advance_spec t dt (RAF.tau_m c) (RAF.R_m c) (RAF.tau_w c)
              (RAF.thr c) (RAF.omega c) (RAF.b c) (RAF.v_rest c)
              (RAF.v_reset c) (RAF.w_reset c) (RAF.intgFlag c)
              (RAF.j c) (RAF.v c) (RAF.w c) (RAF.tols c) _w _v bs n
              Hint Hsw Hsv Hl)
    as (v' & w' & s' & tols' & Hrun & (S1 & S2 & S3 & S4) & _).
  unfold RAF.advance_state. rewrite Hrun. cbn [bind].
  eexists. split; [reflexivity |].
  unfold RAF.allocated. cbn. repeat split; assumption.
Qed.

(** The same for the winner-take-all cell. *)
Lemma wtas_reset_allocated (c : WTAS.WTASCell) (bs n : nat) :
  WTAS.allocated bs n c -> WTAS.allocated bs n (WTAS.reset c).
Proof.
  intros (Hb & Hn & _ & _ & _ & Ht & _). unfold WTAS.allocated, WTAS.reset. cbn.
  rewrite Hb, Hn. repeat split; assumption.
Qed.

Lemma wtas_set_j_allocated (c : WTAS.WTASCell) (x : tensor) (bs n : nat) :
  WTAS.allocated bs n c -> shape x = (bs, n) ->
  WTAS.allocated bs n (WTAS.set_j c x).
Proof.
  intros (Hb & Hn & _ & Hv & Hs & Ht & Hr & Hl) Hx.
  unfold WTAS.allocated. cbn. repeat split; assumption.
Qed.

Lemma wtas_advance_allocated (c : WTAS.WTASCell) (t dt : R) (bs n : nat) :
  WTAS.allocated bs n c ->
  exists c', WTAS.advance_state c t dt = Ok c' /\ WTAS.allocated bs n c'.
Proof.
  intros (Hb & Hn & Hj & Hv & Hs & Ht & Hr & Hl).
  injection Hj as Hj1 Hj2. injection Ht as Ht1 Ht2.
  injection Hr as Hr1 Hr2. injection Hl as Hl1 Hl2.
  destruct (wtas_advance_spec dt (WTAS.tau_m c) (WTAS.R_m c) (WTAS.thr_gain c)
              (WTAS.refract_T c) t (WTAS.j c) (WTAS.v c) (WTAS.s c)
              (WTAS.thr c) (WTAS.rfr c) (WTAS.tols c) bs n)
    as (v' & s' & thr' & rfr' & tols' & Hrun & (S1 & S2 & S3 & S4 & S5) & _);
    try assumption; [now right |].
  unfold WTAS.advance_state. rewrite Hrun. cbn [bind].
  eexists. split; [reflexivity |].
  unfold WTAS.allocated. cbn. repeat split; try assumption.
  unfold shape. now rewrite Hj1, Hj2.
Qed.

(** C8, at a concrete input: a winner-take-all cell of three units built
    with [batch_size=2] among its keyword arguments has compartments of shape
    [1 x 3], not [2 x 3]. *)
Lemma wtas_ignores_batch_size :
  shape (WTAS.v (WTAS.__init__ 3 1 1 0.4 0.002 0 0.05 (fun _ => 0)
                   [("batch_size"%string, 2%nat)])) = (1%nat, 3%nat) /\
  shape (WTAS.v (WTAS.__init__ 3 1 1 0.4 0.002 0 0.05 (fun _ => 0)
                   [("batch_size"%string, 2%nat)])) <> (2%nat, 3%nat).
Proof.
  split; [reflexivity | discriminate].
Qed.

(** C8, as amended: the resonate-and-fire cell allocates every compartment
    with shape [b x n_units] for the batch size [b] it is given; the
    winner-take-all cell has no batch-size parameter and allocates every
    compartment, threshold included, with shape [1 x n_units]; for both
    cells [reset], and a step whose input current has the allocated shape,
    keep that layout. *)
Theorem cell_allocation_shapes
    (n_units bs : nat)
    (tau_m resist_m tau_w omega thr v_rest v_reset w_reset b v0 w0 : R)
    (integration_type : string)
    (R_m thr_base thr_gain refract_T thr_jitter : R) (uniform : nat -> R)
    (kwargs : list (string * nat)) :
  RAF.allocated bs n_units
    (RAF.__init__ n_units tau_m resist_m tau_w omega thr v_rest v_reset w_reset
       b v0 w0 integration_type bs) /\
  WTAS.allocated 1 n_units
    (WTAS.__init__ n_units tau_m R_m thr_base thr_gain refract_T thr_jitter
       uniform kwargs) /\
  (forall c, RAF.allocated bs n_units c ->
     RAF.allocated bs n_units (RAF.reset c) /\
     forall x t dt, shape x = (bs, n_units) ->
       exists c', RAF.advance_state (RAF.set_j c x) t dt = Ok c' /\
                  RAF.allocated bs n_units c') /\
  (forall c, WTAS.allocated 1 n_units c ->
     WTAS.allocated 1 n_units (WTAS.reset c) /\
     forall x t dt, shape x = (1%nat, n_units) ->
       exists c', WTAS.advance_state (WTAS.set_j c x) t dt = Ok c' /\
                  WTAS.allocated 1 n_units c').
Proof.
  split; [| split; [| split]].
  - unfold RAF.allocated. cbn. repeat split.
  - unfold WTAS.allocated. cbn. repeat split.
  - intros c Hc. split; [now apply raf_reset_allocated |].
    intros x t dt Hx. apply raf_advance_allocated.
    now apply raf_set_j_allocated.
  - intros c Hc. split; [now apply wtas_reset_allocated |].
    intros x t dt Hx. apply wtas_advance_allocated.
    now apply wtas_set_j_allocated.
Qed.

(** A freshly built resonate-and-fire cell of two units takes a step with a
    current of shape [1 x 2] and keeps its layout. *)
Lemma cell_allocation_shapes_witness :
  exists c',
    RAF.advance_state
      (RAF.set_j (RAF.__init__ 2 15 1 400 10 5 (-72) (-75) 0 (-1) (-70) 0
                    "euler" 1) Examples.two_j) 0 1 = Ok c' /\
    RAF.allocated 1 2 c'.
Proof.
  destruct (cell_allocation_shapes 2 1 15 1 400 10 5 (-72) (-75) 0 (-1) (-70) 0
              "euler" 1 0.4 0.002 0 0.05 (fun _ => 0) [])
    as (Hinit & _ & Hraf & _).
  destruct (Hraf _ Hinit) as (_ & Hstep).
  apply (Hstep Examples.two_j 0 1). reflexivity.
Defined.

End Construction.

(* ------------------------------------------------------------------ *)
(** ** The secant surrogate *)

Section Secant.

(** What [d_spike_fx] computes: the hyperbolic secant of [c2 * j], scaled by
    [c1 * c2] unless the scale is omitted, and masked to the units with a
    positive current. *)
Lemma d_spike_fx_spec (j : tensor) (thr c1 c2 : R) (omit_scale : bool) :
  exists out,
    SurrogateFx.d_spike_fx j thr c1 c2 omit_scale = Ok out /\
    shape out = shape j /\
    forall i k, (i < rows j)%nat -> (k < cols j)%nat ->
      elt out i k =
        (if omit_scale then SurrogateFx.sech (elt j i k * c2)
         else SurrogateFx.sech (elt j i k * c2) * (c1 * c2))
        * gtf (elt j i k) 0.
Proof.
  destruct j as [jr jc jf].
  unfold SurrogateFx.d_spike_fx, mul.
  destruct omit_scale; cbn [negb]; zip_to jr jc;
    (eexists; split; [reflexivity |]; split; [reflexivity |]);
    intros i k Hi Hk; cbn [rows cols] in Hi, Hk;
    cbn [elt rows cols map scale gts];
    rewrite ?(bidx_lt jr i Hi), ?(bidx_lt jc k Hk); reflexivity.
Qed.

Lemma sech_1_bounds : 0 < SurrogateFx.sech 1 < 1.
Proof.
  unfold SurrogateFx.sech.
  assert (H1 : 2 < exp 1) by (pose proof (exp_ineq1 1); lra).
  assert (H2 : 0 < exp (Ropp 1)) by apply exp_pos.
  assert (Hc : 1 < (exp 1 + exp (Ropp 1)) / 2) by lra.
  set (c := (exp 1 + exp (Ropp 1)) / 2) in *.
  assert (Hinv : c * / c = 1) by (apply Rinv_r; lra).
  assert (Hpos : 0 < / c) by (apply Rinv_0_lt_compat; lra).
  unfold Rdiv. rewrite Rmult_1_l. split; nra.
Qed.

(** C1, at the failing input [j = 1], [c2 = 1], scale omitted: the function
    returns [sech 1], which is strictly larger than the [sech^2 1] that its
    docstring states. *)
Theorem secant_lif_returns_sech_not_sech2 :
  exists out,
    SurrogateFx.d_spike_fx Examples.one_one 0 0.82 1 true = Ok out /\
    elt out 0 0 = SurrogateFx.sech 1 /\
    SurrogateFx.d_spike_doc 1 0.82 1 true = SurrogateFx.sech2 1 /\
    SurrogateFx.sech2 1 < SurrogateFx.sech 1.
Proof.
  destruct (d_spike_fx_spec Examples.one_one 0 0.82 1 true)
    as (out & Hrun & _ & Helt).
  exists out. split; [assumption |].
  split; [| split].
  - rewrite (Helt 0%nat 0%nat) by (cbn; lia). cbn.
    rewrite gtf_true by lra. rewrite Rmult_1_r. f_equal. lra.
  - unfold SurrogateFx.d_spike_doc.
    destruct (Rlt_dec 0 1) as [_ | H]; [| lra].
    rewrite Rmult_1_l. f_equal. lra.
  - pose proof sech_1_bounds as [H0 H1].
    unfold SurrogateFx.sech2. nra.
Qed.

End Secant.

(* ------------------------------------------------------------------ *)
(** ** The surrogate builders *)

Section Surrogates.

Lemma sech_bounds (x : R) : 0 < SurrogateFx.sech x <= 1.
Proof.
  unfold SurrogateFx.sech.
  assert (Hp : 0 < exp x) by apply exp_pos.
  rewrite exp_Ropp.
  assert (Hi : exp x * / exp x = 1) by (apply Rinv_r; lra).
  assert (Hq : 0 < / exp x) by (apply Rinv_0_lt_compat; lra).
  generalize dependent (exp x). intros a Hp Hi Hq.
  assert (Hsq : 0 <= (a - 1) * (a - 1) * / a)
    by (apply Rmult_le_pos; [apply Rle_0_sqr | lra]).
  assert (Hex : (a - 1) * (a - 1) * / a = a + / a - 2) by (field; lra).
  assert (Hc : 1 <= (a + / a) / 2) by lra.
  generalize dependent ((a + / a) / 2). intros c Hc.
  assert (Hci : c * / c = 1) by (apply Rinv_r; lra).
  assert (Hcp : 0 < / c) by (apply Rinv_0_lt_compat; lra).
  unfold Rdiv. rewrite Rmult_1_l. split; nra.
Qed.

(** X1: the four builders return the same spike function, whose elements
    are 1 exactly where the voltage is strictly above the threshold and 0
    elsewhere; the straight-through surrogate derivative is 1 at every
    element, whatever the voltage and the threshold. *)
Theorem spike_fx_heaviside (v : tensor) (thr : R) :
  (StraightThrough.spike_fx v thr = SurrogateFx.spike_fx v thr /\
   Triangular.spike_fx v thr = SurrogateFx.spike_fx v thr /\
   Arctan.spike_fx v thr = SurrogateFx.spike_fx v thr) /\
  shape (SurrogateFx.spike_fx v thr) = shape v /\
  shape (StraightThrough.d_spike_fx v thr) = shape v /\
  forall i k,
    (elt (SurrogateFx.spike_fx v thr) i k = 1 <-> thr < elt v i k) /\
    (elt (SurrogateFx.spike_fx v thr) i k = 0 <-> elt v i k <= thr) /\
    elt (StraightThrough.d_spike_fx v thr) i k = 1.
Proof.
  split; [repeat split |]. do 2 (split; [reflexivity |]).
  intros i k. cbn. unfold gtf.
  destruct (Rlt_dec thr (elt v i k)) as [H | H];
    repeat split; intros; try lra; ring.
Qed.

(** X2: the triangular surrogate derivative is [thr] strictly below the
    threshold and [- thr] at and above it, so its magnitude is [|thr|]
    everywhere. *)
Theorem triangular_derivative (v : tensor) (thr : R) :
  exists out,
    Triangular.d_spike_fx v thr = Ok out /\
    shape out = shape v /\
    forall i k, (i < rows v)%nat -> (k < cols v)%nat ->
      (elt v i k < thr -> elt out i k = thr) /\
      (thr <= elt v i k -> elt out i k = - thr) /\
      Rabs (elt out i k) = Rabs thr.
Proof.
  destruct v as [vr vc vf].
  unfold Triangular.d_spike_fx, sub. zip_to vr vc.
  eexists. split; [reflexivity |]. split; [reflexivity |].
  intros i k Hi Hk. cbn [rows cols] in Hi, Hk.
  cbn [elt rows cols Jnp.map scale rsub lts].
  rewrite ?(bidx_lt vr i Hi), ?(bidx_lt vc k Hk).
  unfold ltf. destruct (Rlt_dec (vf i k) thr) as [H | H].
  - repeat split; intros; try lra. f_equal. ring.
  - repeat split; intros; try lra. rewrite <- (Rabs_Ropp thr). f_equal. ring.
Qed.

(** X3: the arctan surrogate derivative does not read the threshold; every
    element lies between 0 and [1/pi], and is [1/pi] where the voltage
    is 0. *)
Theorem arctan_derivative_bounds (v : tensor) (thr thr' : R) :
  Arctan.d_spike_fx v thr = Arctan.d_spike_fx v thr' /\
  forall i k,
    0 <= elt (Arctan.d_spike_fx v thr) i k <= 1 / PI /\
    (elt v i k = 0 -> elt (Arctan.d_spike_fx v thr) i k = 1 / PI).
Proof.
  split; [reflexivity |].
  intros i k. cbn.
  pose proof PI_RGT_0 as Hpi.
  set (x := elt v i k). set (q := x * PI * (x * PI)).
  assert (Hq : 0 <= q) by (unfold q; nra).
  assert (Hpp : 0 < 1 / PI) by (apply Rdiv_lt_0_compat; lra).
  assert (Hi : (1 + q) * / (1 + q) = 1) by (apply Rinv_r; lra).
  assert (Hip : 0 < / (1 + q)) by (apply Rinv_0_lt_compat; lra).
  unfold Rdiv at 1 3 5. rewrite !Rmult_1_l.
  split; [split; nra |].
  intros E. assert (Hq0 : q = 0) by (unfold q; rewrite E; ring).
  rewrite Hq0 in *. nra.
Qed.

(** X4: with the scale omitted, every element of the secant surrogate
    derivative lies in [[0, 1]], and it is 0 on the units whose current is
    not positive. *)
Theorem secant_derivative_bounds (j : tensor) (thr c1 c2 : R) :
  exists out,
    SurrogateFx.d_spike_fx j thr c1 c2 true = Ok out /\
    shape out = shape j /\
    forall i k, (i < rows j)%nat -> (k < cols j)%nat ->
      0 <= elt out i k <= 1 /\
      (elt j i k <= 0 -> elt out i k = 0).
Proof.
  destruct (d_spike_fx_spec j thr c1 c2 true) as (out & Hrun & Hs & Helt).
  exists out. do 2 (split; [assumption |]).
  intros i k Hi Hk. rewrite (Helt i k Hi Hk).
  pose proof (sech_bounds (elt j i k * c2)) as [H0 H1].
  unfold gtf. destruct (Rlt_dec 0 (elt j i k)) as [H | H].
  - split; [lra |]. intros; lra.
  - split; [lra |]. intros; lra.
Qed.

End Surrogates.

(* ------------------------------------------------------------------ *)
(** ** The winner-take-all cell: further properties of a step *)

Section WTAS_more.

Import ModelUtils.

(** X5: whatever the shapes, every spike returned by a step is 0 or 1. *)
Theorem wtas_spikes_binary
    (t dt tau_m R_m thr_gain refract_T : R) (j v0 s0 thr rfr tols : tensor)
    (v' s' thr' rfr' tols' : tensor) :
  WTAS._advance_state t dt tau_m R_m thr_gain refract_T j v0 s0 thr rfr tols
    = Ok (v', s', thr', rfr', tols') ->
  forall i k, elt s' i k = 0 \/ elt s' i k = 1.
Proof.
  unfold WTAS._advance_state, WTAS.run_cell.
  destruct (mul (scale j R_m) (ges rfr refract_T)) as [v1 |];
    cbn [bind]; [| discriminate].
  unfold gt at 1, zip at 1.
  destruct (bdim (rows (softmax v1)) (rows thr)) as [r |];
    [| cbn [bind]; discriminate].
  destruct (bdim (cols (softmax v1)) (cols thr)) as [c |];
    [| cbn [bind]; discriminate].
  cbn [bind].
  match goal with
  | |- context [add thr ?x] => destruct (add thr x) as [thr1 |]
  end; cbn [bind]; [| discriminate].
  match goal with
  | |- context [mul (shift rfr dt) ?x] =>
      destruct (mul (shift rfr dt) x) as [a |]
  end; cbn [bind]; [| discriminate].
  match goal with
  | |- context [add a ?x] => destruct (add a x) as [rfr1 |]
  end; cbn [bind]; [| discriminate].
  match goal with
  | |- context [WTAS.update_times t ?x tols] =>
      destruct (WTAS.update_times t x tols) as [tols1 |]
  end; cbn [bind]; [| discriminate].
  intros H. injection H as <- <- <- <- <-.
  intros i k. cbn [elt]. apply gtf_01.
Qed.

(** A step on a row of two units. *)
Lemma wtas_spikes_binary_witness :
  exists v' s' thr' rfr' tols',
    WTAS._advance_state 0 1 1 1 0.002 0
      Examples.two_j Examples.two_zero Examples.two_zero
      Examples.two_thr Examples.two_rfr Examples.two_zero
      = Ok (v', s', thr', rfr', tols') /\
    forall i k, elt s' i k = 0 \/ elt s' i k = 1.
Proof.
  destruct (wtas_advance_spec 1 1 1 0.002 0 0
              Examples.two_j Examples.two_zero Examples.two_zero
              Examples.two_thr Examples.two_rfr Examples.two_zero 1 2)
    as (v' & s' & thr' & rfr' & tols' & Hrun & _);
    try reflexivity; [left; reflexivity |].
  exists v', s', thr', rfr', tols'. split; [exact Hrun |].
  exact (wtas_spikes_binary 0 1 1 1 0.002 0
           Examples.two_j Examples.two_zero Examples.two_zero
           Examples.two_thr Examples.two_rfr Examples.two_zero
           v' s' thr' rfr' tols' Hrun).
Defined.

(** X6: the time of the last spike becomes the current time where the unit
    spiked and keeps its value where it did not. *)
Theorem wtas_time_of_last_spike
    (t dt tau_m R_m thr_gain refract_T : R) (j v0 s0 thr rfr tols : tensor)
    (b n : nat) :
  rows j = b -> cols j = n -> rows rfr = b -> cols rfr = n ->
  rows tols = b -> cols tols = n ->
  cols thr = n -> (rows thr = 1%nat \/ rows thr = b) ->
  exists v' s' thr' rfr' tols',
    WTAS._advance_state t dt tau_m R_m thr_gain refract_T j v0 s0 thr rfr tols
      = Ok (v', s', thr', rfr', tols') /\
    forall i k, (i < b)%nat -> (k < n)%nat ->
      (elt s' i k = 1 -> elt tols' i k = t) /\
      (elt s' i k = 0 -> elt tols' i k = elt tols i k) /\
      (elt s' i k = 0 \/ elt s' i k = 1).
Proof.
  intros Hjr Hjc Hrr Hrc Hlr Hlc Htc Htr.
  destruct (wtas_advance_spec dt tau_m R_m thr_gain refract_T t
              j v0 s0 thr rfr tols b n Hjr Hjc Hrr Hrc Hlr Hlc Htc Htr)
    as (v' & s' & thr' & rfr' & tols' & Hrun & _ & Helt).
  exists v', s', thr', rfr', tols'. split; [assumption |].
  intros i k Hi Hk.
  destruct (Helt i k Hi Hk) as (_ & Es & _ & _ & El).
  split; [| split].
  - intros H1. rewrite El, H1. ring.
  - intros H0. rewrite El, H0. ring.
  - rewrite Es. apply gtf_01.
Qed.

(** A step at time 7 on a row of two units. *)
Lemma wtas_time_of_last_spike_witness :
  exists v' s' thr' rfr' tols',
    WTAS._advance_state 7 1 1 1 0.002 0
      Examples.two_j Examples.two_zero Examples.two_zero
      Examples.two_thr Examples.two_rfr Examples.two_zero
      = Ok (v', s', thr', rfr', tols') /\
    forall i k, (i < 1)%nat -> (k < 2)%nat ->
      (elt s' i k = 1 -> elt tols' i k = 7) /\
      (elt s' i k = 0 -> elt tols' i k = elt Examples.two_zero i k) /\
      (elt s' i k = 0 \/ elt s' i k = 1).
Proof.
  apply (wtas_time_of_last_spike 7 1 1 1 0.002 0
           Examples.two_j Examples.two_zero Examples.two_zero
           Examples.two_thr Examples.two_rfr Examples.two_zero 1 2);
    try reflexivity.
  left; reflexivity.
Defined.

(** X7: the refractory timer restarts at [dt] where the unit spiked and grows
    by [dt] where it did not; with a non-negative step and a non-negative
    timer it is therefore at least [dt] after every step. *)
Theorem wtas_refractory_timer
    (t dt tau_m R_m thr_gain refract_T : R) (j v0 s0 thr rfr tols : tensor)
    (b n : nat) :
  rows j = b -> cols j = n -> rows rfr = b -> cols rfr = n ->
  rows tols = b -> cols tols = n ->
  cols thr = n -> (rows thr = 1%nat \/ rows thr = b) ->
  exists v' s' thr' rfr' tols',
    WTAS._advance_state t dt tau_m R_m thr_gain refract_T j v0 s0 thr rfr tols
      = Ok (v', s', thr', rfr', tols') /\
    forall i k, (i < b)%nat -> (k < n)%nat ->
      (elt s' i k = 1 -> elt rfr' i k = dt) /\
      (elt s' i k = 0 -> elt rfr' i k = elt rfr i k + dt) /\
      (0 <= dt -> 0 <= elt rfr i k -> dt <= elt rfr' i k).
Proof.
  intros Hjr Hjc Hrr Hrc Hlr Hlc Htc Htr.
  destruct (wtas_advance_spec dt tau_m R_m thr_gain refract_T t
              j v0 s0 thr rfr tols b n Hjr Hjc Hrr Hrc Hlr Hlc Htc Htr)
    as (v' & s' & thr' & rfr' & tols' & Hrun & _ & Helt).
  exists v', s', thr', rfr', tols'. split; [assumption |].
  intros i k Hi Hk.
  destruct (Helt i k Hi Hk) as (_ & Es & _ & Er & _).
  split; [| split].
  - intros H1. rewrite Er, H1. ring.
  - intros H0. rewrite Er, H0. ring.
  - intros Hdt Hr. rewrite Er.
    destruct (gtf_01 (elt (softmax v') i k) (elt thr (bidx (rows thr) i) k))
      as [E | E]; rewrite <- Es in E; rewrite E; lra.
Qed.

(** A step of size 1 on a row of two units. *)
Lemma wtas_refractory_timer_witness :
  exists v' s' thr' rfr' tols',
    WTAS._advance_state 0 1 1 1 0.002 0
      Examples.two_j Examples.two_zero Examples.two_zero
      Examples.two_thr Examples.two_rfr Examples.two_zero
      = Ok (v', s', thr', rfr', tols') /\
    forall i k, (i < 1)%nat -> (k < 2)%nat ->
      (elt s' i k = 1 -> elt rfr' i k = 1) /\
      (elt s' i k = 0 -> elt rfr' i k = elt Examples.two_rfr i k + 1) /\
      (0 <= 1 -> 0 <= elt Examples.two_rfr i k -> 1 <= elt rfr' i k).
Proof.
  apply (wtas_refractory_timer 0 1 1 1 0.002 0
           Examples.two_j Examples.two_zero Examples.two_zero
           Examples.two_thr Examples.two_rfr Examples.two_zero 1 2);
    try reflexivity.
  left; reflexivity.
Defined.

(** X8: thresholds are driven towards one spike per row.  For a threshold
    not below the floor: a row with exactly one spike leaves it unchanged;
    with a non-negative gain, a row with at least one spike never lowers it
    and a row with at most one spike never raises it. *)
Theorem wtas_threshold_homeostasis
    (t dt tau_m R_m thr_gain refract_T : R) (j v0 s0 thr rfr tols : tensor)
    (b n : nat) :
  rows j = b -> cols j = n -> rows rfr = b -> cols rfr = n ->
  rows tols = b -> cols tols = n ->
  cols thr = n -> (rows thr = 1%nat \/ rows thr = b) ->
  exists v' s' thr' rfr' tols',
    WTAS._advance_state t dt tau_m R_m thr_gain refract_T j v0 s0 thr rfr tols
      = Ok (v', s', thr', rfr', tols') /\
    forall i k, (i < b)%nat -> (k < n)%nat ->
      0.025 <= elt thr (bidx (rows thr) i) k ->
      (rowsum (elt s' i) n = 1 ->
       elt thr' i k = elt thr (bidx (rows thr) i) k) /\
      (0 <= thr_gain -> 1 <= rowsum (elt s' i) n ->
       elt thr (bidx (rows thr) i) k <= elt thr' i k) /\
      (0 <= thr_gain -> rowsum (elt s' i) n <= 1 ->
       elt thr' i k <= elt thr (bidx (rows thr) i) k).
Proof.
  intros Hjr Hjc Hrr Hrc Hlr Hlc Htc Htr.
  destruct (wtas_advance_spec dt tau_m R_m thr_gain refract_T t
              j v0 s0 thr rfr tols b n Hjr Hjc Hrr Hrc Hlr Hlc Htc Htr)
    as (v' & s' & thr' & rfr' & tols' & Hrun & _ & Helt).
  exists v', s', thr', rfr', tols'. split; [assumption |].
  intros i k Hi Hk Hfloor.
  destruct (Helt i k Hi Hk) as (_ & _ & Et & _).
  rewrite Et. clear Et.
  set (T0 := elt thr (bidx (rows thr) i) k) in *.
  set (m := rowsum (elt s' i) n).
  split; [| split].
  - intros H1. rewrite H1. unfold Rmax.
    destruct (Rle_dec (T0 + (1 - 1) * thr_gain) 0.025); lra.
  - intros Hg Hm. unfold Rmax.
    destruct (Rle_dec (T0 + (m - 1) * thr_gain) 0.025); nra.
  - intros Hg Hm. unfold Rmax.
    destruct (Rle_dec (T0 + (m - 1) * thr_gain) 0.025); nra.
Qed.

(** A row of two units with thresholds 0.4. *)
Lemma wtas_threshold_homeostasis_witness :
  exists v' s' thr' rfr' tols',
    WTAS._advance_state 0 1 1 1 0.002 0
      Examples.two_j Examples.two_zero Examples.two_zero
      Examples.two_thr Examples.two_rfr Examples.two_zero
      = Ok (v', s', thr', rfr', tols') /\
    forall i k, (i < 1)%nat -> (k < 2)%nat ->
      0.025 <= elt Examples.two_thr (bidx (rows Examples.two_thr) i) k ->
      (rowsum (elt s' i) 2 = 1 ->
       elt thr' i k = elt Examples.two_thr (bidx (rows Examples.two_thr) i) k) /\
      (0 <= 0.002 -> 1 <= rowsum (elt s' i) 2 ->
       elt Examples.two_thr (bidx (rows Examples.two_thr) i) k <= elt thr' i k) /\
      (0 <= 0.002 -> rowsum (elt s' i) 2 <= 1 ->
       elt thr' i k <= elt Examples.two_thr (bidx (rows Examples.two_thr) i) k).
Proof.
  apply (wtas_threshold_homeostasis 0 1 1 1 0.002 0
           Examples.two_j Examples.two_zero Examples.two_zero
           Examples.two_thr Examples.two_rfr Examples.two_zero 1 2);
    try reflexivity.
  left; reflexivity.
Defined.

(** X9: the step has no memory of the voltage and of the spikes: the
    voltage and spike arrays passed in are never read. *)
Theorem wtas_step_ignores_previous_voltage
    (t dt tau_m R_m thr_gain refract_T : R)
    (j v0 v0' s0 s0' thr rfr tols : tensor) :
  WTAS._advance_state t dt tau_m R_m thr_gain refract_T j v0 s0 thr rfr tols
  = WTAS._advance_state t dt tau_m R_m thr_gain refract_T j v0' s0' thr rfr tols.
Proof. reflexivity. Qed.

(** X10: a unit whose timer has reached [refract_T] gets the voltage
    [j * R_m]. *)
Theorem wtas_voltage_outside_refraction
    (t dt tau_m R_m thr_gain refract_T : R) (j v0 s0 thr rfr tols : tensor)
    (b n : nat) :
  rows j = b -> cols j = n -> rows rfr = b -> cols rfr = n ->
  rows tols = b -> cols tols = n ->
  cols thr = n -> (rows thr = 1%nat \/ rows thr = b) ->
  exists v' s' thr' rfr' tols',
    WTAS._advance_state t dt tau_m R_m thr_gain refract_T j v0 s0 thr rfr tols
      = Ok (v', s', thr', rfr', tols') /\
    forall i k, (i < b)%nat -> (k < n)%nat ->
      refract_T <= elt rfr i k ->
      elt v' i k = elt j i k * R_m.
Proof.
  intros Hjr Hjc Hrr Hrc Hlr Hlc Htc Htr.
  destruct (wtas_advance_spec dt tau_m R_m thr_gain refract_T t
              j v0 s0 thr rfr tols b n Hjr Hjc Hrr Hrc Hlr Hlc Htc Htr)
    as (v' & s' & thr' & rfr' & tols' & Hrun & _ & Helt).
  exists v', s', thr', rfr', tols'. split; [assumption |].
  intros i k Hi Hk Hr.
  destruct (Helt i k Hi Hk) as (Ev & _).
  rewrite Ev, gef_true by assumption. ring.
Qed.

(** A row of two units, the second of which is past the refractory period. *)
Lemma wtas_voltage_outside_refraction_witness :
  exists v' s' thr' rfr' tols',
    WTAS._advance_state 0 1 1 1 0.002 1
      Examples.two_j Examples.two_zero Examples.two_zero
      Examples.two_thr Examples.two_rfr Examples.two_zero
      = Ok (v', s', thr', rfr', tols') /\
    forall i k, (i < 1)%nat -> (k < 2)%nat ->
      1 <= elt Examples.two_rfr i k ->
      elt v' i k = elt Examples.two_j i k * 1.
Proof.
  apply (wtas_voltage_outside_refraction 0 1 1 1 0.002 1
           Examples.two_j Examples.two_zero Examples.two_zero
           Examples.two_thr Examples.two_rfr Examples.two_zero 1 2);
    try reflexivity.
  left; reflexivity.
Defined.

(** Sums over a row. *)
Lemma rowsum_lt (f g : nat -> R) (n : nat) :
  (0 < n)%nat -> (forall k, (k < n)%nat -> f k < g k) ->
  rowsum f n < rowsum g n.
Proof.
  intros Hn H. induction n as [| m IH]; [lia |].
  cbn [rowsum]. destruct m as [| m'].
  - cbn [rowsum]. specialize (H 0%nat ltac:(lia)). lra.
  - assert (rowsum f (S m') < rowsum g (S m'))
      by (apply IH; [lia | intros; apply H; lia]).
    specialize (H (S m') ltac:(lia)). lra.
Qed.

Lemma rowsum_scal (f : nat -> R) (c : R) (n : nat) :
  rowsum (fun k => f k * c) n = rowsum f n * c.
Proof.
  induction n as [| m IH]; cbn [rowsum]; [ring | rewrite IH; ring].
Qed.

Lemma rowsum_pos (f : nat -> R) (n : nat) :
  (0 < n)%nat -> (forall k, (k < n)%nat -> 0 < f k) -> 0 < rowsum f n.
Proof.
  intros Hn H.
  replace 0 with (rowsum (fun _ => 0) n).
  - apply rowsum_lt; assumption.
  - clear. induction n as [| m IH]; cbn [rowsum]; [reflexivity | rewrite IH; ring].
Qed.

Lemma rowsum_01 (f : nat -> R) (n : nat) :
  (forall k, (k < n)%nat -> f k = 0 \/ f k = 1) ->
  exists m : nat, rowsum f n = INR m.
Proof.
  intros H. induction n as [| p IH].
  - exists 0%nat. reflexivity.
  - destruct IH as (m & Em); [intros; apply H; lia |].
    cbn [rowsum]. rewrite Em.
    destruct (H p ltac:(lia)) as [E | E]; rewrite E.
    + exists m. ring.
    + exists (S m). rewrite S_INR. ring.
Qed.

(** X11: when every threshold of a row is at least one half, at most one
    unit of the row spikes: the softmax shares of a row add up to 1, so two
    of them cannot both exceed one half. *)
Theorem wtas_at_most_one_winner
    (t dt tau_m R_m thr_gain refract_T : R) (j v0 s0 thr rfr tols : tensor)
    (b n : nat) :
  rows j = b -> cols j = n -> rows rfr = b -> cols rfr = n ->
  rows tols = b -> cols tols = n ->
  cols thr = n -> (rows thr = 1%nat \/ rows thr = b) ->
  exists v' s' thr' rfr' tols',
    WTAS._advance_state t dt tau_m R_m thr_gain refract_T j v0 s0 thr rfr tols
      = Ok (v', s', thr', rfr', tols') /\
    forall i, (i < b)%nat ->
      (forall k, (k < n)%nat -> 1 / 2 <= elt thr (bidx (rows thr) i) k) ->
      rowsum (elt s' i) n <= 1.
Proof.
  intros Hjr Hjc Hrr Hrc Hlr Hlc Htc Htr.
  destruct (wtas_advance_spec dt tau_m R_m thr_gain refract_T t
              j v0 s0 thr rfr tols b n Hjr Hjc Hrr Hrc Hlr Hlc Htc Htr)
    as (v' & s' & thr' & rfr' & tols' & Hrun & (Hv & _) & Helt).
  exists v', s', thr', rfr', tols'. split; [assumption |].
  intros i Hi Hthr.
  injection Hv as Hvr Hvc.
  destruct n as [| n']; [cbn; lra |].
  set (n := S n') in *.
  set (e := fun k' => exp (elt v' i k')).
  assert (HS : 0 < rowsum e n)
    by (apply rowsum_pos; [unfold n; lia | intros; apply exp_pos]).
  assert (Hs : forall k, (k < n)%nat ->
            elt s' i k = gtf (e k / rowsum e n) (elt thr (bidx (rows thr) i) k)).
  { intros k Hk. destruct (Helt i k Hi Hk) as (_ & Es & _).
    rewrite Es. unfold softmax. cbn [elt]. now rewrite Hvc. }
  assert (Hlt : rowsum (elt s' i) n < rowsum (fun k => e k * (2 * / rowsum e n)) n).
  { apply rowsum_lt; [unfold n; lia |].
    intros k Hk. rewrite (Hs k Hk).
    assert (Hp : 0 < e k * / rowsum e n)
      by (apply Rmult_lt_0_compat; [apply exp_pos | now apply Rinv_0_lt_compat]).
    specialize (Hthr k Hk). unfold gtf, Rdiv in *.
    destruct (Rlt_dec (elt thr (bidx (rows thr) i) k) (e k * / rowsum e n)); lra. }
  rewrite rowsum_scal in Hlt.
  replace (rowsum e n * (2 * / rowsum e n)) with 2 in Hlt by (field; lra).
  destruct (rowsum_01 (elt s' i) n) as (m & Em).
  { intros k Hk. rewrite (Hs k Hk). apply gtf_01. }
  rewrite Em in *.
  assert (Hm : (m < 2)%nat) by (apply INR_lt; cbn; lra).
  assert (Hm1 : (m <= 1)%nat) by lia.
  apply le_INR in Hm1. cbn in Hm1. lra.
Qed.

(** A row of two units with thresholds 0.6. *)
Lemma wtas_at_most_one_winner_witness :
  exists v' s' thr' rfr' tols',
    WTAS._advance_state 0 1 1 1 0.002 0
      Examples.two_j Examples.two_zero Examples.two_zero
      Examples2.high_thr Examples.two_rfr Examples.two_zero
      = Ok (v', s', thr', rfr', tols') /\
    rowsum (elt s' 0) 2 <= 1.
Proof.
  destruct (wtas_at_most_one_winner 0 1 1 1 0.002 0
              Examples.two_j Examples.two_zero Examples.two_zero
              Examples2.high_thr Examples.two_rfr Examples.two_zero 1 2)
    as (v' & s' & thr' & rfr' & tols' & Hrun & Hone);
    try reflexivity; [left; reflexivity |].
  exists v', s', thr', rfr', tols'. split; [exact Hrun |].
  apply (Hone 0%nat); [lia |].
  intros [| [| k]] Hk; cbn; try lra. lia.
Defined.

(** X12: [reset] brings a freshly built cell back to itself and is
    idempotent; after a step it restores every compartment of the reset
    state except the threshold, which keeps the value the step gave it. *)
Theorem wtas_reset_restores
    (n_units : nat) (tau_m R_m thr_base thr_gain refract_T thr_jitter : R)
    (uniform : nat -> R) (kwargs : list (string * nat)) :
  WTAS.reset (WTAS.__init__ n_units tau_m R_m thr_base thr_gain refract_T
                thr_jitter uniform kwargs)
  = WTAS.__init__ n_units tau_m R_m thr_base thr_gain refract_T
      thr_jitter uniform kwargs /\
  (forall c, WTAS.reset (WTAS.reset c) = WTAS.reset c) /\
  (forall c t dt c',
     WTAS.advance_state c t dt = Ok c' ->
     WTAS.j (WTAS.reset c') = WTAS.j (WTAS.reset c) /\
     WTAS.v (WTAS.reset c') = WTAS.v (WTAS.reset c) /\
     WTAS.s (WTAS.reset c') = WTAS.s (WTAS.reset c) /\
     WTAS.rfr (WTAS.reset c') = WTAS.rfr (WTAS.reset c) /\
     WTAS.tols (WTAS.reset c') = WTAS.tols (WTAS.reset c) /\
     WTAS.thr (WTAS.reset c') = WTAS.thr c').
Proof.
  split; [reflexivity | split; [reflexivity |]].
  intros c t dt c'. unfold WTAS.advance_state.
  destruct (WTAS._advance_state t dt (WTAS.tau_m c) (WTAS.R_m c)
              (WTAS.thr_gain c) (WTAS.refract_T c) (WTAS.j c) (WTAS.v c)
              (WTAS.s c) (WTAS.thr c) (WTAS.rfr c) (WTAS.tols c))
    as [[[[[v' s'] thr'] rfr'] tols'] |]; cbn [bind]; [| discriminate].
  intros H. injection H as <-. repeat split.
Qed.

End WTAS_more.

(* ------------------------------------------------------------------ *)
(** ** The resonate-and-fire cell: further properties of a step *)

Section RAF_more.

Import OdeUtils.

(** X13: the time of the last spike becomes the current time where the unit
    spiked and keeps its value where it did not; the input current is
    returned as it came. *)
Theorem raf_time_of_last_spike
    (t dt tau_m R_m tau_w thr omega b v_rest v_reset w_reset : R)
    (flag : nat) (j v w tols : tensor) (bs n : nat) :
  shape j = (bs, n) -> shape v = (bs, n) -> shape w = (bs, n) ->
  shape tols = (bs, n) ->
  exists v' w' s' tols',
    RAF._advance_state t dt tau_m R_m tau_w thr omega b v_rest v_reset w_reset
      flag j v w tols = Ok (j, v', w', s', tols') /\
    forall i k, (i < bs)%nat -> (k < n)%nat ->
      (elt s' i k = 1 -> elt tols' i k = t) /\
      (elt s' i k = 0 -> elt tols' i k = elt tols i k).
Proof.
  intros Hj Hv Hw Hl.
  destruct (raf_integrate_ok dt tau_m tau_w omega b flag (scale j R_m) v w bs n)
    as (_w & _v & Hint & Hsw & Hsv); try assumption.
  destruct (raf_advance_spec t dt tau_m R_m tau_w thr omega b v_rest v_reset
              w_reset flag j v w tols _w _v bs n Hint Hsw Hsv Hl)
    as (v' & w' & s' & tols' & Hrun & _ & Helt).
  exists v', w', s', tols'. split; [assumption |].
  intros i k Hi Hk.
  destruct (Helt i k Hi Hk) as (_ & _ & _ & El).
  split; intros E; rewrite El, E; ring.
Qed.

(** The default cell at time 3 on a row of two units. *)
Lemma raf_time_of_last_spike_witness :
  exists v' w' s' tols',
    RAF._advance_state 3 1 15 1 400 5 10 (-1) (-72) (-75) 0
      0 Examples.two_j Examples.two_v Examples.two_zero Examples.two_zero
      = Ok (Examples.two_j, v', w', s', tols') /\
    forall i k, (i < 1)%nat -> (k < 2)%nat ->
      (elt s' i k = 1 -> elt tols' i k = 3) /\
      (elt s' i k = 0 -> elt tols' i k = elt Examples.two_zero i k).
Proof.
  apply (raf_time_of_last_spike 3 1 15 1 400 5 10 (-1) (-72) (-75) 0
           0 Examples.two_j Examples.two_v Examples.two_zero Examples.two_zero 1 2);
    reflexivity.
Defined.

(** X14: with non-zero time constants and a non-negative threshold, a unit
    at rest that receives no current stays at rest: zero voltage, zero
    angular driver and zero current give zero voltage, zero angular driver
    and no spike, for either integrator. *)
Theorem raf_rest_is_fixed_point
    (t dt tau_m R_m tau_w thr omega b v_rest v_reset w_reset : R)
    (flag : nat) (j v w tols : tensor) (bs n : nat) :
  tau_m <> 0 -> tau_w <> 0 ->
  0 <= thr ->
  shape j = (bs, n) -> shape v = (bs, n) -> shape w = (bs, n) ->
  shape tols = (bs, n) ->
  exists v' w' s' tols',
    RAF._advance_state t dt tau_m R_m tau_w thr omega b v_rest v_reset w_reset
      flag j v w tols = Ok (j, v', w', s', tols') /\
    forall i k, (i < bs)%nat -> (k < n)%nat ->
      elt j i k = 0 -> elt v i k = 0 -> elt w i k = 0 ->
      elt s' i k = 0 /\ elt v' i k = 0 /\ elt w' i k = 0 /\
      elt tols' i k = elt tols i k.
Proof.
  intros _ _ Hthr Hj Hv Hw Hl.
  destruct (raf_integrate_spec dt tau_m tau_w omega b flag (scale j R_m) v w bs n)
    as (_w & _v & Hint & Hsw & Hsv & Hc); try assumption.
  destruct (raf_advance_spec t dt tau_m R_m tau_w thr omega b v_rest v_reset
              w_reset flag j v w tols _w _v bs n Hint Hsw Hsv Hl)
    as (v' & w' & s' & tols' & Hrun & _ & Helt).
  exists v', w', s', tols'. split; [assumption |].
  intros i k Hi Hk Ej Ev Ew.
  destruct (Helt i k Hi Hk) as (Es & Ev' & Ew' & El).
  destruct (Hc i k Hi Hk) as (Cw & Cv).
  cbn [elt scale map] in Cw. rewrite Ej, Ev, Ew in Cw. rewrite Ev, Ew in Cv.
  assert (Zw : elt _w i k = 0).
  { rewrite Cw. unfold RAF.cand_w, RAF.dfw_elt.
    destruct (flag =? 1)%nat; ring. }
  assert (Zv : elt _v i k = 0).
  { rewrite Cv. unfold RAF.cand_v, RAF.dfv_elt.
    destruct (flag =? 1)%nat; ring. }
  assert (Zs : elt s' i k = 0) by (rewrite Es, Zv; now apply gtf_false).
  rewrite Ev', Ew', El, Zs, Zv, Zw. repeat split; ring.
Qed.

(** The default cell at rest, midpoint steps. *)
Lemma raf_rest_is_fixed_point_witness :
  exists v' w' s' tols',
    RAF._advance_state 0 1 15 1 400 5 10 (-1) (-72) (-75) 0
      1 Examples.two_zero Examples.two_zero Examples.two_zero Examples.two_zero
      = Ok (Examples.two_zero, v', w', s', tols') /\
    forall i k, (i < 1)%nat -> (k < 2)%nat ->
      elt Examples.two_zero i k = 0 -> elt Examples.two_zero i k = 0 ->
      elt Examples.two_zero i k = 0 ->
      elt s' i k = 0 /\ elt v' i k = 0 /\ elt w' i k = 0 /\
      elt tols' i k = elt Examples.two_zero i k.
Proof.
  apply (raf_rest_is_fixed_point 0 1 15 1 400 5 10 (-1) (-72) (-75) 0
           1 Examples.two_zero Examples.two_zero Examples.two_zero
           Examples.two_zero 1 2);
    try reflexivity; lra.
Defined.

(** X15: with non-zero time constants, a step of size 0 leaves every unit
    whose voltage is not above the threshold as it is: same voltage, same
    angular driver, no spike. *)
Theorem raf_zero_step
    (t tau_m R_m tau_w thr omega b v_rest v_reset w_reset : R)
    (flag : nat) (j v w tols : tensor) (bs n : nat) :
  tau_m <> 0 -> tau_w <> 0 ->
  shape j = (bs, n) -> shape v = (bs, n) -> shape w = (bs, n) ->
  shape tols = (bs, n) ->
  exists v' w' s' tols',
    RAF._advance_state t 0 tau_m R_m tau_w thr omega b v_rest v_reset w_reset
      flag j v w tols = Ok (j, v', w', s', tols') /\
    forall i k, (i < bs)%nat -> (k < n)%nat ->
      elt v i k <= thr ->
      elt s' i k = 0 /\ elt v' i k = elt v i k /\ elt w' i k = elt w i k.
Proof.
  intros _ _ Hj Hv Hw Hl.
  destruct (raf_integrate_spec 0 tau_m tau_w omega b flag (scale j R_m) v w bs n)
    as (_w & _v & Hint & Hsw & Hsv & Hc); try assumption.
  destruct (raf_advance_spec t 0 tau_m R_m tau_w thr omega b v_rest v_reset
              w_reset flag j v w tols _w _v bs n Hint Hsw Hsv Hl)
    as (v' & w' & s' & tols' & Hrun & _ & Helt).
  exists v', w', s', tols'. split; [assumption |].
  intros i k Hi Hk Hsub.
  destruct (Helt i k Hi Hk) as (Es & Ev' & Ew' & _).
  destruct (Hc i k Hi Hk) as (Cw & Cv).
  assert (Zw : elt _w i k = elt w i k).
  { rewrite Cw. unfold RAF.cand_w. destruct (flag =? 1)%nat; ring. }
  assert (Zv : elt _v i k = elt v i k).
  { rewrite Cv. unfold RAF.cand_v. destruct (flag =? 1)%nat; ring. }
  assert (Zs : elt s' i k = 0) by (rewrite Es, Zv; now apply gtf_false).
  rewrite Ev', Ew', Zs, Zv, Zw. repeat split; ring.
Qed.

(** The default cell on a row of two units. *)
Lemma raf_zero_step_witness :
  exists v' w' s' tols',
    RAF._advance_state 0 0 15 1 400 5 10 (-1) (-72) (-75) 0
      0 Examples.two_j Examples.two_v Examples.two_zero Examples.two_zero
      = Ok (Examples.two_j, v', w', s', tols') /\
    forall i k, (i < 1)%nat -> (k < 2)%nat ->
      elt Examples.two_v i k <= 5 ->
      elt s' i k = 0 /\ elt v' i k = elt Examples.two_v i k /\
      elt w' i k = elt Examples.two_zero i k.
Proof.
  apply (raf_zero_step 0 15 1 400 5 10 (-1) (-72) (-75) 0
           0 Examples.two_j Examples.two_v Examples.two_zero Examples.two_zero 1 2);
    try reflexivity; lra.
Defined.

(** X16: [reset] brings a freshly built cell back to itself, is idempotent,
    and after any step gives the cell that [reset] gave before the step. *)
Theorem raf_reset_restores
    (n_units bs : nat)
    (tau_m resist_m tau_w omega thr v_rest v_reset w_reset b v0 w0 : R)
    (integration_type : string) :
  RAF.reset (RAF.__init__ n_units tau_m resist_m tau_w omega thr v_rest v_reset
               w_reset b v0 w0 integration_type bs)
  = RAF.__init__ n_units tau_m resist_m tau_w omega thr v_rest v_reset
      w_reset b v0 w0 integration_type bs /\
  (forall c, RAF.reset (RAF.reset c) = RAF.reset c) /\
  (forall c t dt c',
     RAF.advance_state c t dt = Ok c' -> RAF.reset c' = RAF.reset c).
Proof.
  split; [reflexivity | split; [reflexivity |]].
  intros c t dt c'. unfold RAF.advance_state.
  destruct (RAF._advance_state t dt (RAF.tau_m c) (RAF.R_m c) (RAF.tau_w c)
              (RAF.thr c) (RAF.omega c) (RAF.b c) (RAF.v_rest c)
              (RAF.v_reset c) (RAF.w_reset c) (RAF.intgFlag c) (RAF.j c)
              (RAF.v c) (RAF.w c) (RAF.tols c))
    as [[[[[j' v'] w'] s'] tols'] |]; cbn [bind]; [| discriminate].
  intros H. injection H as <-. reflexivity.
Qed.

(** X17: the step receives the resting potential [v_rest] and never reads
    it. *)
Theorem raf_step_ignores_v_rest
    (t dt tau_m R_m tau_w thr omega b v_rest v_rest' v_reset w_reset : R)
    (flag : nat) (j v w tols : tensor) :
  RAF._advance_state t dt tau_m R_m tau_w thr omega b v_rest v_reset w_reset
    flag j v w tols
  = RAF._advance_state t dt tau_m R_m tau_w thr omega b v_rest' v_reset w_reset
    flag j v w tols.
Proof. reflexivity. Qed.

End RAF_more.

(* ------------------------------------------------------------------ *)
(** ** Saving and loading the threshold *)

Section Persistence_properties.

Import Persistence.

Lemma append_inv_head (s a b : string) :
  (s ++ a = s ++ b)%string -> a = b.
Proof.
  induction s as [| c s IH]; cbn; intros H; [assumption |].
  injection H as H. auto.
Qed.

Lemma length_append (a b : string) :
  String.length (a ++ b) = (String.length a + String.length b)%nat.
Proof.
  induction a as [| c a IH]; cbn; [reflexivity | now rewrite IH].
Qed.

Lemma append_inv_tail (s a b : string) :
  (a ++ s = b ++ s)%string -> a = b.
Proof.
  revert b. induction a as [| c a IH]; intros [| d b] H; cbn in H.
  - reflexivity.
  - apply (f_equal String.length) in H. cbn in H.
    rewrite length_append in H. lia.
  - apply (f_equal String.length) in H. cbn in H.
    rewrite length_append in H. lia.
  - injection H as -> H. f_equal. now apply IH.
Qed.

(** In one directory, different names give different files. *)
Lemma file_name_of_inj (directory name name' : string) :
  file_name_of directory name = file_name_of directory name' -> name = name'.
Proof.
  unfold file_name_of. intros H.
  apply append_inv_tail in H. now apply append_inv_head in H.
Qed.

(** X18: loading after a successful save gives the cell the saved threshold
    and changes no other compartment, whatever cell is loaded into. *)
Theorem save_load_round_trip
    (name directory : string) (c c2 : WTAS.WTASCell) (fs fs' : disk) :
  save name c directory fs = Done fs' ->
  exists c2',
    load name c2 directory fs' = Done c2' /\
    WTAS.thr c2' = WTAS.thr c /\
    (WTAS.j c2', WTAS.v c2', WTAS.s c2', WTAS.rfr c2', WTAS.tols c2')
    = (WTAS.j c2, WTAS.v c2, WTAS.s c2, WTAS.rfr c2, WTAS.tols c2).
Proof.
  unfold save, savez, load, load_npz.
  destruct (writable fs (file_name_of directory name)); [| discriminate].
  intros H. injection H as <-. cbn [files].
  rewrite String.eqb_refl. cbn [getitem]. rewrite String.eqb_refl.
  eexists. repeat split.
Qed.

(** A cell named "X" saved to an empty writable disk and loaded into a cell
    built with another threshold base. *)
Lemma save_load_round_trip_witness :
  exists fs' c2',
    save "X" Examples2.cell_a "out" Examples2.empty_disk = Done fs' /\
    load "X" Examples2.cell_b "out" fs' = Done c2' /\
    WTAS.thr c2' = WTAS.thr Examples2.cell_a /\
    (WTAS.j c2', WTAS.v c2', WTAS.s c2', WTAS.rfr c2', WTAS.tols c2')
    = (WTAS.j Examples2.cell_b, WTAS.v Examples2.cell_b, WTAS.s Examples2.cell_b,
       WTAS.rfr Examples2.cell_b, WTAS.tols Examples2.cell_b).
Proof.
  eexists.
  destruct (save_load_round_trip "X" "out" Examples2.cell_a Examples2.cell_b
              Examples2.empty_disk _ eq_refl) as (c2' & H).
  exists c2'. split; [reflexivity | exact H].
Defined.

(** X19: saving a cell does not disturb the file of a cell with another name
    in the same directory: loading that other cell gives what it gave before
    the save. *)
Theorem save_keeps_other_cells
    (name name2 directory : string) (c c2 : WTAS.WTASCell) (fs fs' : disk) :
  name2 <> name ->
  save name c directory fs = Done fs' ->
  load name2 c2 directory fs' = load name2 c2 directory fs.
Proof.
  intros Hne. unfold save, savez, load, load_npz.
  destruct (writable fs (file_name_of directory name)); [| discriminate].
  intros H. injection H as <-. cbn [files].
  destruct (String.eqb_spec (file_name_of directory name2)
              (file_name_of directory name)) as [E | E].
  - apply file_name_of_inj in E. contradiction.
  - reflexivity.
Qed.

(** Cells "X" and "Y" in one directory. *)
Lemma save_keeps_other_cells_witness :
  exists fs',
    save "X" Examples2.cell_a "out" Examples2.empty_disk = Done fs' /\
    load "Y" Examples2.cell_b "out" fs'
    = load "Y" Examples2.cell_b "out" Examples2.empty_disk.
Proof.
  eexists. split; [reflexivity |].
  apply (save_keeps_other_cells "X" "Y" "out" Examples2.cell_a Examples2.cell_b
           Examples2.empty_disk _); [discriminate | reflexivity].
Defined.

End Persistence_properties.

(* ------------------------------------------------------------------ *)
(** ** Patch sets *)

Section Patch_sets.

Import PatchUtils.

Lemma rowsum_ext (f g : nat -> R) (n : nat) :
  (forall k, (k < n)%nat -> f k = g k) -> rowsum f n = rowsum g n.
Proof.
  intros H. induction n as [| m IH]; cbn [rowsum]; [reflexivity |].
  rewrite IH by (intros; apply H; lia). rewrite (H m) by lia. reflexivity.
Qed.

Lemma rowsum_minus_const (f : nat -> R) (c : R) (n : nat) :
  rowsum (fun k => f k - c) n = rowsum f n - INR n * c.
Proof.
  induction n as [| m IH]; [cbn; ring |].
  cbn [rowsum]. rewrite IH, S_INR. ring.
Qed.

(** Centering returns an array of the same shape whose rows have lost their
    mean. *)
Lemma center_rows_spec (p : tensor) :
  exists out,
    center_rows p = Returns out /\
    shape out = shape p /\
    forall i k, (i < rows p)%nat -> (k < cols p)%nat ->
      elt out i k = elt p i k - rowsum (elt p i) (cols p) / INR (cols p).
Proof.
  destruct p as [r c f]. unfold center_rows, sub.
  rewrite (zip_ok _ _ _ r c) by (simpl; auto with bdim).
  eexists. split; [reflexivity |]. split; [reflexivity |].
  intros i k Hi Hk. cbn [rows cols] in Hi, Hk.
  cbn [elt rows cols mean_axis1].
  now rewrite ?(bidx_lt r i Hi), ?(bidx_lt c k Hk).
Qed.

Lemma center_rows_zero_mean (p out : tensor) :
  center_rows p = Returns out ->
  (0 < cols out)%nat ->
  forall i, (i < rows out)%nat -> rowsum (elt out i) (cols out) = 0.
Proof.
  intros Hrun Hc i Hi.
  destruct (center_rows_spec p) as (out' & Hrun' & Hs & Helt).
  rewrite Hrun in Hrun'. injection Hrun' as <-.
  injection Hs as Hr Hcs. rewrite Hr in Hi. rewrite Hcs in *.
  rewrite (rowsum_ext _ (fun k => elt p i k - rowsum (elt p i) (cols p) / INR (cols p)))
    by (intros k Hk; now apply Helt).
  rewrite rowsum_minus_const.
  assert (Hn : INR (cols p) <> 0) by (apply not_0_INR; lia).
  field. assumption.
Qed.

(** X20: when [generate_patch_set] is asked to center and returns, every row
    of the result (every flattened patch) sums to zero, whatever patches the
    extraction drew. *)
Theorem generate_patch_set_rows_centered
    (extract : nat -> tensor -> nat * nat -> nat -> outcome patches)
    (array_of_None : exn) (x_batch : tensor) (patch_size : nat * nat) (max_patches : nat)
    (out : tensor) :
  generate_patch_set extract array_of_None x_batch patch_size max_patches true = Returns out ->
  (0 < cols out)%nat ->
  forall i, (i < rows out)%nat -> rowsum (elt out i) (cols out) = 0.
Proof.
  unfold generate_patch_set.
  destruct (for_range _ _ _) as [[p |] | e]; cbn [obind]; try discriminate.
  destruct (center_rows p) as [q | e] eqn:Hq; cbn [obind]; [| discriminate].
  intros H. injection H as <-.
  now apply (center_rows_zero_mean p).
Qed.

(** One image of four pixels, one patch of two pixels. *)
Lemma generate_patch_set_rows_centered_witness :
  exists out,
    generate_patch_set Examples2.corner TypeError Examples2.image4 (1%nat, 2%nat) 1 true
    = Returns out /\
    (0 < cols out)%nat /\
    forall i, (i < rows out)%nat -> rowsum (elt out i) (cols out) = 0.
Proof.
  eexists. split; [reflexivity |]. split; [cbn; lia |].
  apply (generate_patch_set_rows_centered Examples2.corner TypeError Examples2.image4
           (1%nat, 2%nat) 1 _ eq_refl).
  cbn; lia.
Defined.

(** The loop of [generate_patch_set] on square images, with an extraction
    that returns between one and [max_patches] patches of the requested
    size. *)
Lemma patch_loop_ok
    (extract : nat -> tensor -> nat * nat -> nat -> outcome patches)
    (x : tensor) (px : nat) (patch_size : nat * nat) (max_patches : nat) :
  (px * px)%nat = cols x ->
  (forall s xs, exists p,
      extract s xs patch_size max_patches = Returns p /\
      (1 <= count p <= max_patches)%nat /\
      ph p = fst patch_size /\ pw p = snd patch_size) ->
  forall len a acc,
    match acc with
    | None => a = 0%nat
    | Some p => (0 < a)%nat /\ cols p = (fst patch_size * snd patch_size)%nat /\
                (a <= rows p <= a * max_patches)%nat
    end ->
    (0 < a + len)%nat ->
    exists p',
      for_range (patch_loop_body extract x px px patch_size max_patches)
        (seq a len) acc = Returns (Some p') /\
      cols p' = (fst patch_size * snd patch_size)%nat /\
      (a + len <= rows p' <= (a + len) * max_patches)%nat.
Proof.
  intros Hsq Hex. induction len as [| len IH]; intros a acc Hacc Hpos.
  - destruct acc as [p |]; [| lia].
    exists p. cbn. rewrite Nat.add_0_r. tauto.
  - cbn [seq for_range]. unfold patch_loop_body at 1, row_reshape.
    rewrite (proj2 (Nat.eqb_eq _ _) Hsq). cbn [obind].
    match goal with
    | |- context [extract a ?xs _ _] => destruct (Hex a xs) as (p0 & -> & Hc & Hh & Hw)
    end.
    cbn [obind]. unfold flatten_patches.
    destruct (Nat.eqb_spec (count p0) 0) as [E | _]; [lia |]. cbn [obind].
    destruct (Nat.ltb_spec 0 a) as [Ha | Ha].
    + destruct acc as [p |]; [| lia].
      destruct Hacc as (_ & Hcp & Hrp).
      unfold concatenate. cbn [cols]. rewrite Hcp, Hh, Hw, Nat.eqb_refl.
      cbn [obind].
      destruct (IH (S a)
                  (Some (mkTensor (rows p + count p0)
                           (fst patch_size * snd patch_size)
                           (fun i k => if (i <? rows p)%nat then elt p i k
                                       else pix p0 (i - rows p)
                                              (k / snd patch_size)
                                              (k mod snd patch_size)))))
        as (p' & Hrun & Hc' & Hr'); [cbn; nia | lia |].
      exists p'. split; [exact Hrun |]. split; [assumption | nia].
    + assert (a = 0%nat) by lia. subst a.
      destruct (IH 1%nat
                  (Some (mkTensor (count p0) (ph p0 * pw p0)
                           (fun i k => pix p0 i (k / pw p0) (k mod pw p0)))))
        as (p' & Hrun & Hc' & Hr'); [cbn; rewrite Hh, Hw; nia | lia |].
      exists p'. split; [exact Hrun |]. split; [assumption | nia].
Qed.

(** X21: on a batch of at least one image whose length is a perfect square,
    with an extraction that returns between one and [max_patches] patches of
    the requested size per image, [generate_patch_set] returns an array with
    one column per patch pixel and between one and [max_patches] rows per
    image. *)
Theorem generate_patch_set_shape
    (extract : nat -> tensor -> nat * nat -> nat -> outcome patches)
    (array_of_None : exn) (x_batch : tensor) (patch_size : nat * nat) (max_patches : nat)
    (center : bool) :
  (0 < rows x_batch)%nat ->
  (int_sqrt (cols x_batch) * int_sqrt (cols x_batch))%nat = cols x_batch ->
  (forall s xs, exists p,
      extract s xs patch_size max_patches = Returns p /\
      (1 <= count p <= max_patches)%nat /\
      ph p = fst patch_size /\ pw p = snd patch_size) ->
  exists out,
    generate_patch_set extract array_of_None x_batch patch_size max_patches center
    = Returns out /\
    cols out = (fst patch_size * snd patch_size)%nat /\
    (rows x_batch <= rows out <= rows x_batch * max_patches)%nat.
Proof.
  intros Hrows Hsq Hex.
  destruct (patch_loop_ok extract x_batch (int_sqrt (cols x_batch)) patch_size
              max_patches Hsq Hex (rows x_batch) 0%nat None eq_refl)
    as (p & Hrun & Hc & Hr); [lia |].
  unfold generate_patch_set. rewrite Hrun. cbn [obind].
  destruct center.
  - destruct (center_rows_spec p) as (out & Hcen & Hs & _).
    rewrite Hcen. cbn [obind]. exists out.
    injection Hs as Hs1 Hs2. split; [reflexivity |].
    rewrite Hs1, Hs2. split; [assumption | lia].
  - cbn [obind]. exists p. split; [reflexivity |]. split; [assumption | lia].
Qed.

(** Two images of four pixels, one corner patch each. *)
Lemma generate_patch_set_shape_witness :
  exists out,
    generate_patch_set Examples2.corner TypeError Examples2.images4 (1%nat, 2%nat) 1 true
    = Returns out /\
    cols out = (fst (1%nat, 2%nat) * snd (1%nat, 2%nat))%nat /\
    (rows Examples2.images4 <= rows out <= rows Examples2.images4 * 1)%nat.
Proof.
  apply (generate_patch_set_shape Examples2.corner TypeError Examples2.images4
           (1%nat, 2%nat) 1 true).
  - cbn; lia.
  - reflexivity.
  - intros s xs. eexists. split; [reflexivity |]. cbn. repeat split; lia.
Defined.

(** X22: on a batch without images [generate_patch_set] raises, whatever the
    other arguments: the loop leaves [p_batch] at [None]; with centering the
    mean over axis 1 fails on it with an [AxisError], without centering the
    conversion of [None] to an array fails with the exception of that
    library call. *)
Theorem generate_patch_set_empty_batch
    (extract : nat -> tensor -> nat * nat -> nat -> outcome patches)
    (array_of_None : exn) (x_batch : tensor) (patch_size : nat * nat)
    (max_patches : nat) (center : bool) :
  rows x_batch = 0%nat ->
  generate_patch_set extract array_of_None x_batch patch_size max_patches center
  = Raises (if center then AxisError else array_of_None).
Proof.
  intros H. unfold generate_patch_set. rewrite H. cbn.
  destruct center; reflexivity.
Qed.

(** A batch of shape [0 x 4], with and without centering; the conversion of
    [None] is taken to raise a [ValueError]. *)
Lemma generate_patch_set_empty_batch_witness :
  generate_patch_set Examples2.corner ValueError (zeros 0 4) (1%nat, 2%nat) 1 true
  = Raises AxisError /\
  generate_patch_set Examples2.corner ValueError (zeros 0 4) (1%nat, 2%nat) 1 false
  = Raises ValueError.
Proof.
  split.
  - apply (generate_patch_set_empty_batch Examples2.corner ValueError (zeros 0 4)
             (1%nat, 2%nat) 1 true).
    reflexivity.
  - apply (generate_patch_set_empty_batch Examples2.corner ValueError (zeros 0 4)
             (1%nat, 2%nat) 1 false).
    reflexivity.
Defined.

(** X23: when the length of the images is not a perfect square,
    [generate_patch_set] raises a [ValueError] at the first image, before
    any patch is extracted. *)
Theorem generate_patch_set_not_square
    (extract : nat -> tensor -> nat * nat -> nat -> outcome patches)
    (array_of_None : exn) (x_batch : tensor) (patch_size : nat * nat) (max_patches : nat)
    (center : bool) :
  (0 < rows x_batch)%nat ->
  (int_sqrt (cols x_batch) * int_sqrt (cols x_batch))%nat <> cols x_batch ->
  generate_patch_set extract array_of_None x_batch patch_size max_patches center
  = Raises ValueError.
Proof.
  intros Hrows Hsq. unfold generate_patch_set.
  destruct (rows x_batch) as [| m]; [lia |].
  cbn [seq for_range]. unfold patch_loop_body at 1, row_reshape.
  rewrite (proj2 (Nat.eqb_neq _ _) Hsq). reflexivity.
Qed.

(** One image of three pixels. *)
Lemma generate_patch_set_not_square_witness :
  generate_patch_set Examples2.corner TypeError (of_rows 3 [[1; 2; 3]]) (1%nat, 1%nat) 1 true
  = Raises ValueError.
Proof.
  apply (generate_patch_set_not_square Examples2.corner TypeError (of_rows 3 [[1; 2; 3]])
           (1%nat, 1%nat) 1 true).
  - cbn; lia.
  - cbn; lia.
Defined.

(** X24: [generate_pacthify_patch_set] reshapes the whole batch into one
    image, so a batch of two or more non-empty images raises a [ValueError]
    before [patchify] is called. *)
Theorem patchify_rejects_several_images
    (squeezed_patchify : tensor -> nat * nat -> outcome grid)
    (x_batch : tensor) (patch_size : nat * nat) (center : bool) :
  (2 <= rows x_batch)%nat -> (1 <= cols x_batch)%nat ->
  generate_pacthify_patch_set squeezed_patchify x_batch patch_size center
  = Raises ValueError.
Proof.
  intros Hr Hc. unfold generate_pacthify_patch_set, batch_reshape, int_sqrt.
  pose proof (Nat.sqrt_specif (cols x_batch)) as [Hs _].
  destruct (Nat.eqb_spec (Nat.sqrt (cols x_batch) * Nat.sqrt (cols x_batch))
              (rows x_batch * cols x_batch)) as [E | _]; [nia | reflexivity].
Qed.

(** Two images of four pixels. *)
Lemma patchify_rejects_several_images_witness :
  generate_pacthify_patch_set Examples2.tiles Examples2.images4
    (2%nat, 2%nat) true
  = Raises ValueError.
Proof.
  apply (patchify_rejects_several_images Examples2.tiles Examples2.images4
           (2%nat, 2%nat) true); cbn; lia.
Defined.

(** X25: when [generate_pacthify_patch_set] is asked to center and returns,
    every row of the result sums to zero. *)
Theorem patchify_rows_centered
    (squeezed_patchify : tensor -> nat * nat -> outcome grid)
    (x_batch : tensor) (patch_size : nat * nat) (out : tensor) :
  generate_pacthify_patch_set squeezed_patchify x_batch patch_size true
  = Returns out ->
  (0 < cols out)%nat ->
  forall i, (i < rows out)%nat -> rowsum (elt out i) (cols out) = 0.
Proof.
  unfold generate_pacthify_patch_set.
  destruct (batch_reshape _ _ _) as [img | e]; cbn [obind]; [| discriminate].
  destruct (squeezed_patchify _ _) as [pX | e]; cbn [obind]; [| discriminate].
  destruct (for_range _ _ _) as [l | e]; cbn [obind]; [| discriminate].
  destruct (concatenate_list l) as [p | e]; cbn [obind]; [| discriminate].
  apply center_rows_zero_mean.
Qed.

(** One image of sixteen pixels cut into four tiles. *)
Lemma patchify_rows_centered_witness :
  exists out,
    generate_pacthify_patch_set Examples2.tiles Examples2.image16
      (2%nat, 2%nat) true = Returns out /\
    (0 < cols out)%nat /\
    forall i, (i < rows out)%nat -> rowsum (elt out i) (cols out) = 0.
Proof.
  eexists. split; [reflexivity |]. split; [cbn; lia |].
  apply (patchify_rows_centered Examples2.tiles Examples2.image16
           (2%nat, 2%nat) _ eq_refl).
  cbn; lia.
Defined.

End Patch_sets.

(* ------------------------------------------------------------------ *)
(** ** Steps with a broadcast input current *)

Section Broadcast_steps.

Import OdeUtils ModelUtils.

Ltac zips' bs n B N :=
  repeat first [ zip_to bs n | zip_to B N | zip_to B n ].

(** X26: when the input current of a resonate-and-fire step has another
    shape than the state but can be broadcast against it, the step returns
    compartments of different shapes: voltage, spikes and time of last spike
    keep the shape of the state, the angular driver takes the broadcast
    shape. *)
Theorem raf_broadcast_current_shapes
    (t dt tau_m R_m tau_w thr omega b v_rest v_reset w_reset : R)
    (flag : nat) (j v w tols : tensor) (bs n B N : nat) :
  shape v = (bs, n) -> shape w = (bs, n) -> shape tols = (bs, n) ->
  bdim (rows j) bs = Some B -> bdim (cols j) n = Some N ->
  exists v' w' s' tols',
    RAF._advance_state t dt tau_m R_m tau_w thr omega b v_rest v_reset w_reset
      flag j v w tols = Ok (j, v', w', s', tols') /\
    shape v' = (bs, n) /\ shape s' = (bs, n) /\ shape tols' = (bs, n) /\
    shape w' = (B, N).
Proof.
  intros Hv Hw Hl Er Ec.
  destruct j as [jr jc jf], v as [vr vc vf], w as [wr wc wf], tols as [lr lc lf].
  injection Hv as -> ->. injection Hw as -> ->. injection Hl as -> ->.
  cbn [rows cols] in Er, Ec.
  destruct (bdim_absorb _ _ _ Er) as (R1 & R2 & R3 & R4).
  destruct (bdim_absorb _ _ _ Ec) as (C1 & C2 & C3 & C4).
  assert (Er' : bdim bs jr = Some B) by (now rewrite bdim_comm).
  assert (Ec' : bdim n jc = Some N) by (now rewrite bdim_comm).
  unfold RAF._advance_state, RAF.integrate.
  destruct (Nat.eqb_spec flag 1) as [_ | _];
    unfold step_rk2, step_euler, RAF._dfw, RAF._dfv, RAF._dfw_internal,
      RAF._dfv_internal, RAF._update_times, RAF._emit_spike, add, sub, mul;
    zips' bs n B N;
    do 4 eexists; (split; [reflexivity | repeat split]).
Qed.

(** A current of shape [3 x 2] on a state of shape [1 x 2]. *)
Lemma raf_broadcast_current_shapes_witness :
  exists v' w' s' tols',
    RAF._advance_state 0 1 15 1 400 5 10 (-1) (-72) (-75) 0
      0 Examples.wide_j Examples.two_v Examples.two_zero Examples.two_zero
      = Ok (Examples.wide_j, v', w', s', tols') /\
    shape v' = (1%nat, 2%nat) /\ shape s' = (1%nat, 2%nat) /\
    shape tols' = (1%nat, 2%nat) /\ shape w' = (3%nat, 2%nat).
Proof.
  apply (raf_broadcast_current_shapes 0 1 15 1 400 5 10 (-1) (-72) (-75) 0
           0 Examples.wide_j Examples.two_v Examples.two_zero Examples.two_zero
           1 2 3 2);
    reflexivity.
Defined.

(** X27: when the input current of a winner-take-all step has another shape
    than the state but can be broadcast against it, every returned array
    takes the broadcast number of rows: the state grows to the batch of the
    current. *)
Theorem wtas_broadcast_current_shapes
    (t dt tau_m R_m thr_gain refract_T : R) (j v0 s0 thr rfr tols : tensor)
    (bs n B N : nat) :
  shape rfr = (bs, n) -> shape tols = (bs, n) ->
  cols thr = n -> (rows thr = 1%nat \/ rows thr = bs) ->
  bdim (rows j) bs = Some B -> bdim (cols j) n = Some N ->
  exists v' s' thr' rfr' tols',
    WTAS._advance_state t dt tau_m R_m thr_gain refract_T
      j v0 s0 thr rfr tols = Ok (v', s', thr', rfr', tols') /\
    shape v' = (B, N) /\ shape s' = (B, N) /\ shape thr' = (B, n) /\
    shape rfr' = (B, N) /\ shape tols' = (B, N).
Proof.
  intros Hr Hl Htc Htr Er Ec.
  destruct j as [jr jc jf], thr as [tr tc tf], rfr as [rr rc rf],
    tols as [lr lc lf].
  injection Hr as -> ->. injection Hl as -> ->.
  cbn [rows cols] in Htc, Htr, Er, Ec. subst tc.
  destruct (bdim_absorb _ _ _ Er) as (R1 & R2 & R3 & R4).
  destruct (bdim_absorb _ _ _ Ec) as (C1 & C2 & C3 & C4).
  unfold WTAS._advance_state, WTAS.run_cell, WTAS.update_times, gt, add, mul.
  destruct Htr as [-> | ->]; zips' bs n B N;
    do 5 eexists; (split; [reflexivity | repeat split]).
Qed.

(** A current of shape [3 x 2] on a state of shape [1 x 2]. *)
Lemma wtas_broadcast_current_shapes_witness :
  exists v' s' thr' rfr' tols',
    WTAS._advance_state 0 1 1 1 0.002 0
      Examples.wide_j Examples.two_zero Examples.two_zero
      Examples.two_thr Examples.two_rfr Examples.two_zero
      = Ok (v', s', thr', rfr', tols') /\
    shape v' = (3%nat, 2%nat) /\ shape s' = (3%nat, 2%nat) /\
    shape thr' = (3%nat, 2%nat) /\
    shape rfr' = (3%nat, 2%nat) /\ shape tols' = (3%nat, 2%nat).
Proof.
  apply (wtas_broadcast_current_shapes 0 1 1 1 0.002 0
           Examples.wide_j Examples.two_zero Examples.two_zero
           Examples.two_thr Examples.two_rfr Examples.two_zero 1 2 3 2);
    try reflexivity.
  left; reflexivity.
Defined.

End Broadcast_steps.
